(** * Trade-index ingestion and query API: a shallow embedding

    The development follows [app/ingest.py] (CSV normalisation, period
    keys, the two bulk upserts) and [app/main.py] (the read endpoints
    [/latest] and [/insights/nominal-vs-real]).

    Python values are modelled as follows.
    - [str] is a list of Unicode code points.
    - Exceptions are explicit: a function that can raise returns a
      [result], and [try ... except InvalidOperation] is a match on it.
    - [Decimal] is the sign / coefficient / exponent triple of the
      [decimal] module, with its infinities and NaNs.
    - The two store tables are finite maps keyed by their uniqueness keys.
    - [float] is the binary64 type of the kernel. *)

From Stdlib Require Import ZArith NArith DecimalN List Ascii String Floats Lia.
From stdpp Require Import base option list gmap sorting.

Local Open Scope N_scope.

(** ** Exceptions *)

Inductive exn : Type :=
| ValueError
| InvalidOperation
| KeyError
| CardinalityViolation
| HTTPException (status_code : Z).

Inductive result (A : Type) : Type :=
| Ok (a : A)
| Raise (e : exn).

Arguments Ok {A} a.
Arguments Raise {A} e.

(** Sequencing: the first exception raised propagates. *)
#[global] Instance result_bind : MBind result :=
  fun A B k r =>
    match r with
    | Ok a => k a
    | Raise e => Raise e
    end.

#[global] Instance result_ret : MRet result := fun A a => Ok a.

(** ** Python strings *)

Module Py.

(** A string is the list of its code points. *)
Definition str : Type := list N.

(** [lit] reads a literal of Basic Latin characters. *)
Definition lit (s : string) : str := map N_of_ascii (list_ascii_of_string s).

(** The part of the Unicode character database that lies outside the
    Basic Latin block: which code points are decimal digits (and their
    value), which satisfy [str.isdigit], and the full upper-case mapping.
    Inside Basic Latin the functions below are fixed. *)
Class Unicode : Type := {
  ext_decimal : N -> option N;
  ext_isdigit : N -> bool;
  ext_upper : N -> list N
}.

(** The table that knows no character beyond Basic Latin. *)
Definition basic_latin : Unicode :=
  {| ext_decimal := fun _ => None;
     ext_isdigit := fun _ => false;
     ext_upper := fun c => [c] |}.

(** A table in which U+00B2 (superscript two) is a digit without a
    decimal value, as in the Unicode database. *)
Definition latin1 : Unicode :=
  {| ext_decimal := fun _ => None;
     ext_isdigit := fun c => (c =? 178) || (c =? 179) || (c =? 185);
     ext_upper := fun c => [c] |}.

(** [str.isspace] on one code point. *)
Definition isspace (c : N) : bool :=
  ((9 <=? c) && (c <=? 13)) || ((28 <=? c) && (c <=? 32))
  || (c =? 133) || (c =? 160) || (c =? 5760)
  || ((8192 <=? c) && (c <=? 8202))
  || (c =? 8232) || (c =? 8233) || (c =? 8239) || (c =? 8287)
  || (c =? 12288).

Definition ascii_digit (c : N) : bool := (48 <=? c) && (c <=? 57).

Section Chars.
Context {U : Unicode}.

(** Decimal value of a code point, as [\d] and [int] see it. *)
Definition decimal (c : N) : option N :=
  if c <? 128 then (if ascii_digit c then Some (c - 48) else None)
  else ext_decimal c.

Definition isdecimal_char (c : N) : bool :=
  match decimal c with Some _ => true | None => false end.

Definition isdigit_char (c : N) : bool :=
  if c <? 128 then ascii_digit c else ext_isdigit c.

Definition upper_char (c : N) : list N :=
  if c <? 128 then [if (97 <=? c) && (c <=? 122) then c - 32 else c]
  else ext_upper c.

(** [s.upper()] *)
Definition upper (s : str) : str := flat_map upper_char s.

(** [s.isdigit()] *)
Definition isdigit (s : str) : bool :=
  match s with
  | [] => false
  | _ => forallb isdigit_char s
  end.

(** The value of a run of decimal digits, most significant first. *)
Fixpoint digits_value (acc : N) (s : str) : option N :=
  match s with
  | [] => Some acc
  | c :: s' =>
      match decimal c with
      | Some d => digits_value (10 * acc + d) s'
      | None => None
      end
  end.

(** [int(s)] for a string on which [isdigit] holds: the only way to
    fail is a digit character without a decimal value (the
    interpreter's cap on the length of a numeral is left out). *)
Definition int (s : str) : result N :=
  match s with
  | [] => Raise ValueError
  | _ => match digits_value 0 s with
         | Some n => Ok n
         | None => Raise ValueError
         end
  end.

(** [re.fullmatch(r"\d{n}", s)] *)
Definition fullmatch_digits (n : nat) (s : str) : bool :=
  Nat.eqb (length s) n && forallb isdecimal_char s.

End Chars.

Fixpoint lstrip_by (p : N -> bool) (s : str) : str :=
  match s with
  | [] => []
  | c :: s' => if p c then lstrip_by p s' else s
  end.

Definition rstrip_by (p : N -> bool) (s : str) : str :=
  rev (lstrip_by p (rev s)).

(** [s.strip()] *)
Definition strip (s : str) : str := rstrip_by isspace (lstrip_by isspace s).

(** [s.lstrip(chars)] *)
Definition lstrip (chars : str) (s : str) : str :=
  lstrip_by (fun c => existsb (N.eqb c) chars) s.

Fixpoint str_eqb (a b : str) : bool :=
  match a, b with
  | [], [] => true
  | x :: a', y :: b' => (x =? y) && str_eqb a' b'
  | _, _ => false
  end.

(** [s.startswith(p)] *)
Fixpoint startswith (s p : str) {struct p} : bool :=
  match p, s with
  | [], _ => true
  | x :: p', y :: s' => (x =? y) && startswith s' p'
  | _ :: _, [] => false
  end.

(** [s.endswith(p)] *)
Definition endswith (s p : str) : bool := startswith (rev s) (rev p).

(** [s.replace(old, new)] for a non-empty [old]: occurrences are taken
    left to right and do not overlap; [skip] counts the characters of a
    matched occurrence still to be passed over. *)
Fixpoint replace_from (old new : str) (skip : nat) (s : str) : str :=
  match s with
  | [] => []
  | c :: s' =>
      match skip with
      | S k => replace_from old new k s'
      | O =>
          if startswith s old
          then new ++ replace_from old new (pred (length old)) s'
          else c :: replace_from old new O s'
      end
  end.

Definition replace (old new s : str) : str := replace_from old new O s.

(** [sep in s] for a one-character [sep] *)
Definition contains_char (sep : N) (s : str) : bool := existsb (N.eqb sep) s.

(** [s.split(sep)] for a one-character [sep] *)
Fixpoint split (sep : N) (s : str) : list str :=
  match s with
  | [] => [[]]
  | c :: s' =>
      if c =? sep then [] :: split sep s'
      else match split sep s' with
           | p :: ps => (c :: p) :: ps
           | [] => [[c]]
           end
  end.

Fixpoint uint_str (u : Decimal.uint) : str :=
  match u with
  | Decimal.Nil => []
  | Decimal.D0 u' => 48 :: uint_str u'
  | Decimal.D1 u' => 49 :: uint_str u'
  | Decimal.D2 u' => 50 :: uint_str u'
  | Decimal.D3 u' => 51 :: uint_str u'
  | Decimal.D4 u' => 52 :: uint_str u'
  | Decimal.D5 u' => 53 :: uint_str u'
  | Decimal.D6 u' => 54 :: uint_str u'
  | Decimal.D7 u' => 55 :: uint_str u'
  | Decimal.D8 u' => 56 :: uint_str u'
  | Decimal.D9 u' => 57 :: uint_str u'
  end.

(** [f"{n:02d}"] *)
Definition format_02d (n : N) : str :=
  let d := uint_str (N.to_uint n) in
  repeat 48 (2 - length d)%nat ++ d.

End Py.

Export Py.

(** ** [decimal.Decimal] *)

(** A decimal value as the [decimal] module stores it: a finite number
    is [(-1)^sign * coefficient * 10^exponent]. *)
Inductive Decimal : Type :=
| DFinite (sign : bool) (coefficient : N) (exponent : Z)
| DInfinity (sign : bool)
| DNaN (sign : bool) (signaling : bool) (payload : N).

Definition lower_ascii (c : N) : N :=
  if (65 <=? c) && (c <=? 90) then c + 32 else c.

(** The longest prefix of Basic Latin digits, and what follows it. *)
Fixpoint span_digits (s : str) : str * str :=
  match s with
  | [] => ([], [])
  | c :: s' =>
      if ascii_digit c
      then let '(d, r) := span_digits s' in (c :: d, r)
      else ([], s)
  end.

Definition ascii_value (ds : str) : N :=
  fold_left (fun acc c => 10 * acc + (c - 48)) ds 0.

(** [[eE][-+]?\d+] up to the end of the string, or nothing at all. *)
Definition parse_exponent (s : str) : option Z :=
  match s with
  | [] => Some 0%Z
  | c :: s1 =>
      if lower_ascii c =? 101 then
        let '(neg, s2) :=
          match s1 with
          | 43 :: r => (false, r)
          | 45 :: r => (true, r)
          | _ => (false, s1)
          end in
        let '(ds, rest) := span_digits s2 in
        match ds, rest with
        | _ :: _, [] =>
            Some (if neg then (- Z.of_N (ascii_value ds))%Z
                  else Z.of_N (ascii_value ds))
        | _, _ => None
        end
      else None
  end.

(** [digits '.' [digits] | ['.'] digits], then an optional exponent. *)
Definition parse_number (sign : bool) (s : str) : option Decimal :=
  let '(intpart, s1) := span_digits s in
  let '(fracpart, s2) :=
    match s1 with
    | 46 :: r => span_digits r
    | _ => ([], s1)
    end in
  match intpart ++ fracpart with
  | [] => None
  | ds =>
      match parse_exponent s2 with
      | Some e => Some (DFinite sign (ascii_value ds)
                          (e - Z.of_nat (length fracpart))%Z)
      | None => None
      end
  end.

(** [Inf], [Infinity], [NaN] and [sNaN] with diagnostic digits, in any
    letter case. *)
Definition parse_special (sign : bool) (s : str) : option Decimal :=
  let l := map lower_ascii s in
  if str_eqb l (lit "inf") || str_eqb l (lit "infinity")
  then Some (DInfinity sign)
  else if startswith l (lit "nan") then
    (if forallb ascii_digit (drop 3 l)
     then Some (DNaN sign false (ascii_value (drop 3 l))) else None)
  else if startswith l (lit "snan") then
    (if forallb ascii_digit (drop 4 l)
     then Some (DNaN sign true (ascii_value (drop 4 l))) else None)
  else None.

Section DecimalConstructor.
Context {U : Unicode}.

(** A character of a numeral: Basic Latin as it is, any other decimal
    digit as the Basic Latin digit of its value, nothing else. *)
Definition numeral_char (c : N) : option N :=
  if c <? 128 then Some c
  else match ext_decimal c with
       | Some d => Some (48 + d)
       | None => None
       end.

(** [Decimal(s)] under the default context: surrounding whitespace is
    dropped, underscores are dropped throughout, and a string outside
    the numeric grammar raises [InvalidOperation].  The conversion is
    exact; the bound that the implementation puts on the size of the
    exponent (about 10^18) is left out. *)
Definition Decimal_of_str (s : str) : result Decimal :=
  let s := List.filter (fun c => negb (c =? 95)) (strip s) in
  match mapM numeral_char s with
  | None => Raise InvalidOperation
  | Some a =>
      let '(sign, body) :=
        match a with
        | 45 :: r => (true, r)
        | 43 :: r => (false, r)
        | _ => (false, a)
        end in
      match parse_number sign body with
      | Some d => Ok d
      | None =>
          match parse_special sign body with
          | Some d => Ok d
          | None => Raise InvalidOperation
          end
      end
  end.

End DecimalConstructor.

(** ** Calendar dates *)

Record date : Type := Date { year : N; month : N; day : N }.

#[global] Instance date_eq_dec : EqDecision date.
Proof. solve_decision. Defined.

#[global] Instance date_countable : Countable date :=
  inj_countable' (fun d => (year d, month d, day d))
                 (fun t => Date t.1.1 t.1.2 t.2)
                 (fun d => match d with Date _ _ _ => eq_refl end).

(** Dates compare as (year, month, day) triples. *)
Definition date_leb (a b : date) : bool :=
  (year a <? year b)
  || ((year a =? year b)
      && ((month a <? month b)
          || ((month a =? month b) && (day a <=? day b)))).

(** A point in time, for [ingested_at]. *)
Definition datetime : Type := Z.

(** ** [app/ingest.py] *)

Definition REQUIRED_COLUMNS : list (str * str) :=
  [ (lit "C-TI-0", lit "period_key");
    (lit "C-NACEIDX-0", lit "nace_key");
    (lit "F-UIDXNOM", lit "uidxnom");
    (lit "F-UIDXREAL", lit "uidxreal");
    (lit "F-BESCHIDX", lit "beschidx") ].

Definition OPTIONAL_COLUMNS : list (str * str) :=
  [ (lit "F-UIDXNSB", lit "uidxnsb");
    (lit "F-UIDXRSB", lit "uidxrsb") ].

Definition METRIC_COLUMNS : list (str * str) :=
  [ (lit "uidxnom", lit "uidxnom");
    (lit "uidxreal", lit "uidxreal");
    (lit "beschidx", lit "beschidx");
    (lit "uidxnsb", lit "uidxnsb");
    (lit "uidxrsb", lit "uidxrsb") ].

Record ParsedRow : Type := {
  period_key : str;
  nace_key : str;
  values : gmap str (option Decimal)
}.

(** [d.get(k)] on a dictionary of optional values *)
Definition dict_get (d : gmap str (option Decimal)) (k : str)
  : option Decimal :=
  match d !! k with
  | Some v => v
  | None => None
  end.

(** [d[k]] *)
Definition getitem (d : gmap str nat) (k : str) : result nat :=
  match d !! k with
  | Some v => Ok v
  | None => Raise KeyError
  end.

(** [row[idx] if idx < len(row) else None] *)
Definition cell (row : list str) (idx : nat) : option str := row !! idx.

Definition nonempty (s : str) : bool :=
  match s with
  | [] => false
  | _ => true
  end.

(** [l.index(x)] *)
Fixpoint index (l : list str) (x : str) : result nat :=
  match l with
  | [] => Raise ValueError
  | y :: l' => if str_eqb y x then Ok O else i ← index l' x; Ok (S i)
  end.

Fixpoint fold_result {A B : Type} (f : B -> A -> result B) (l : list A) (b : B)
  : result B :=
  match l with
  | [] => Ok b
  | a :: l' => b' ← f b a; fold_result f l' b'
  end.

Section Ingest.
Context {U : Unicode}.

Definition _parse_decimal (raw : option str) : result (option Decimal) :=
  match raw with
  | None => Ok None
  | Some raw =>
      let cleaned := strip raw in
      if negb (nonempty cleaned) then Ok None
      else
        let cleaned := replace (lit ",") (lit ".")
                         (replace (lit " ") (lit "") cleaned) in
        match Decimal_of_str cleaned with
        | Ok d => Ok (Some d)
        | Raise InvalidOperation => Ok None
        | Raise e => Raise e
        end
  end.

Definition _normalize_header (value : str) : str :=
  replace (lit "_") (lit "-")
    (replace (lit " ") (lit "")
       (upper (lstrip [65279] (strip value)))).

(** The test of the loop in [_resolve_column]. *)
Definition header_matches (target_norm : str) (name : str) : bool :=
  let normalized := _normalize_header name in
  str_eqb normalized target_norm
  || endswith normalized target_norm
  || startswith normalized target_norm.

Fixpoint resolve_loop (target_norm : str) (fieldnames : list str)
  : option str :=
  match fieldnames with
  | [] => None
  | name :: rest =>
      if header_matches target_norm name then Some name
      else resolve_loop target_norm rest
  end.

Definition _resolve_column (fieldnames : list str) (target : str)
  : option str :=
  let target_norm := _normalize_header target in
  resolve_loop target_norm fieldnames.

(** The stripped, non-blank cells of column [idx] in the first 200
    data rows. *)
Definition sample_values (data_rows : list (list str)) (idx : nat)
  : list str :=
  flat_map
    (fun row =>
       match cell row idx with
       | Some c => if nonempty (strip c) then [strip c] else []
       | None => []
       end)
    (take 200 data_rows).

(** [all(value.isdigit() and 1 <= int(value) <= 12 for value in vs)],
    evaluated left to right. *)
Fixpoint all_months (vs : list str) : result bool :=
  match vs with
  | [] => Ok true
  | value :: vs' =>
      if isdigit value then
        n ← int value;
        if (1 <=? n) && (n <=? 12) then all_months vs' else Ok false
      else Ok false
  end.

Fixpoint find_month_from (data_rows : list (list str)) (idx : nat)
  (header : list str) : result (option nat) :=
  match header with
  | [] => Ok None
  | _ :: header' =>
      match sample_values data_rows idx with
      | [] => find_month_from data_rows (S idx) header'
      | vs =>
          b ← all_months vs;
          if b : bool then Ok (Some idx)
          else find_month_from data_rows (S idx) header'
      end
  end.

Definition _find_month_index (data_rows : list (list str))
  (header : list str) : result (option nat) :=
  find_month_from data_rows O header.

(** The loop that fills [required_map] and [optional_map]. *)
Definition resolve_columns (header : list str) (columns : list (str * str))
  : result (gmap str nat) :=
  fold_result
    (fun m (c : str * str) =>
       match _resolve_column header c.1 with
       | Some resolved =>
           if nonempty resolved
           then i ← index header resolved; Ok (<[c.1 := i]> m)
           else Ok m
       | None => Ok m
       end)
    columns ∅.

(** The first column with a cell, in the first 200 data rows, that
    starts with [prefix] once stripped. *)
Fixpoint sniff_from (prefix : str) (data_rows : list (list str)) (idx : nat)
  (header : list str) : option nat :=
  match header with
  | [] => None
  | _ :: header' =>
      if existsb
           (fun row =>
              match cell row idx with
              | Some c => startswith (strip c) prefix
              | None => false
              end)
           (take 200 data_rows)
      then Some idx
      else sniff_from prefix data_rows (S idx) header'
  end.

Definition sniff_fallback (column prefix : str) (header : list str)
  (data_rows : list (list str)) (required_map : gmap str nat)
  : gmap str nat :=
  match required_map !! column with
  | Some _ => required_map
  | None =>
      match sniff_from prefix data_rows O header with
      | Some idx => <[column := idx]> required_map
      | None => required_map
      end
  end.

(** Lines 161 to 165: the period key of a row, once its raw cell is known
    to be non-empty. *)
Definition row_period_key (month_idx : option nat) (row : list str)
  (period_key : str) : result str :=
  let period_key := strip period_key in
  if fullmatch_digits 4 period_key then
    match month_idx with
    | Some mi =>
        let month_value := default [] (cell row mi) in
        if nonempty month_value && isdigit month_value
        then m ← int month_value; Ok (period_key ++ format_02d m)
        else Ok period_key
    | None => Ok period_key
    end
  else Ok period_key.

Definition row_values (required_map optional_map : gmap str nat)
  (row : list str) : result (gmap str (option Decimal)) :=
  vals ← fold_result
    (fun (vals : gmap str (option Decimal)) (c : str * str) =>
       col_idx ← getitem required_map c.1;
       v ← _parse_decimal (cell row col_idx);
       Ok (<[c.2 := v]> vals))
    REQUIRED_COLUMNS ∅;
  fold_result
    (fun (vals : gmap str (option Decimal)) (c : str * str) =>
       let raw_value :=
         match optional_map !! c.1 with
         | Some col_idx => cell row col_idx
         | None => None
         end in
       v ← _parse_decimal raw_value;
       Ok (<[c.2 := v]> vals))
    OPTIONAL_COLUMNS vals.

(** The body of the loop over the data rows; [None] is [continue]. *)
Definition parse_row (required_map optional_map : gmap str nat)
  (month_idx : option nat) (row : list str) : result (option ParsedRow) :=
  period_idx ← getitem required_map (lit "C-TI-0");
  nace_idx ← getitem required_map (lit "C-NACEIDX-0");
  match cell row period_idx, cell row nace_idx with
  | Some period_key, Some nace_key =>
      if nonempty period_key && nonempty nace_key then
        period_key ← row_period_key month_idx row period_key;
        vals ← row_values required_map optional_map row;
        Ok (Some {| period_key := period_key;
                    nace_key := nace_key;
                    values := vals |})
      else Ok None
  | _, _ => Ok None
  end.

Fixpoint parse_data_rows (required_map optional_map : gmap str nat)
  (month_idx : option nat) (data_rows : list (list str))
  : result (list ParsedRow) :=
  match data_rows with
  | [] => Ok []
  | row :: rest =>
      r ← parse_row required_map optional_map month_idx row;
      rs ← parse_data_rows required_map optional_map month_idx rest;
      Ok (match r with Some p => p :: rs | None => rs end)
  end.

(** [_parse_csv_rows] from [rows_raw = list(reader)] onwards. *)
Definition parse_rows_raw (rows_raw : list (list str))
  : result (list ParsedRow) :=
  match rows_raw with
  | [] => Ok []
  | header :: data_rows =>
      required_map ← resolve_columns header REQUIRED_COLUMNS;
      let required_map :=
        sniff_fallback (lit "C-TI-0") (lit "TIIDX-") header data_rows
          required_map in
      let required_map :=
        sniff_fallback (lit "C-NACEIDX-0") (lit "NACEIDX-") header data_rows
          required_map in
      let missing :=
        List.filter
          (fun c : str * str =>
             match required_map !! c.1 with Some _ => false | None => true end)
          REQUIRED_COLUMNS in
      match missing with
      | _ :: _ => Raise ValueError
      | [] =>
          optional_map ← resolve_columns header OPTIONAL_COLUMNS;
          month_idx ← _find_month_index data_rows header;
          parse_data_rows required_map optional_map month_idx data_rows
      end
  end.

(** The month group of the [%m] directive,
    [1[0-2]|0[1-9]|[1-9]], tried in that order at the head of [s]. *)
Definition month_group (s : str) : option (N * str) :=
  match s with
  | [] => None
  | c :: r =>
      match r with
      | c2 :: r2 =>
          if (c =? 49) && (48 <=? c2) && (c2 <=? 50)
          then Some (10 + (c2 - 48), r2)
          else if (c =? 48) && (49 <=? c2) && (c2 <=? 57)
          then Some (c2 - 48, r2)
          else if (49 <=? c) && (c <=? 57) then Some (c - 48, r) else None
      | [] => if (49 <=? c) && (c <=? 57) then Some (c - 48, r) else None
      end
  end.

(** [date(year, month, 1)]: the year must lie in [1, 9999]. *)
Definition first_of_month (y m : N) : result date :=
  if (1 <=? y) && (y <=? 9999) then Ok (Date y m 1) else Raise ValueError.

(** [datetime.strptime(s, "%Y%m").date().replace(day=1)]: four decimal
    digits, then the month group, then the end of the string. *)
Definition strptime_Ym (s : str) : result date :=
  if fullmatch_digits 4 (take 4 s) then
    match month_group (drop 4 s) with
    | Some (m, []) => y ← int (take 4 s); first_of_month y m
    | Some (_, _ :: _) => Raise ValueError
    | None => Raise ValueError
    end
  else Raise ValueError.

(** [datetime.strptime(s, "%Y").date().replace(day=1)] *)
Definition strptime_Y (s : str) : result date :=
  if fullmatch_digits 4 (take 4 s) then
    match drop 4 s with
    | [] => y ← int (take 4 s); first_of_month y 1
    | _ :: _ => Raise ValueError
    end
  else Raise ValueError.

(** The rewriting of a key that contains a dash. *)
Definition dash_clean (cleaned : str) : str :=
  if contains_char 45 cleaned then
    let parts := split 45 cleaned in
    let last_part := List.last parts [] in
    if Nat.eqb (length last_part) 6 then last_part
    else if Nat.eqb (length last_part) 2
            && Nat.eqb (length (nth 0 parts [])) 4
    then nth 0 parts [] ++ nth 1 parts []
    else if Nat.eqb (length last_part) 4 then last_part
    else cleaned
  else cleaned.

Definition _period_to_date (period_key : str) : result (option date) :=
  let cleaned := dash_clean (strip period_key) in
  if fullmatch_digits 6 cleaned then d ← strptime_Ym cleaned; Ok (Some d)
  else if fullmatch_digits 4 cleaned then d ← strptime_Y cleaned; Ok (Some d)
  else Ok None.

End Ingest.

(** ** The relational store *)

(** The five metric columns of a raw staging row. *)
Record RawMetrics : Type := {
  raw_uidxnom : option Decimal;
  raw_uidxreal : option Decimal;
  raw_beschidx : option Decimal;
  raw_uidxnsb : option Decimal;
  raw_uidxrsb : option Decimal
}.

(** [raw.statat_trade_raw] is keyed by [(period_key, nace_key)] and
    [marts.trade_index] by [(period_date, nace_code, metric)]; each row
    carries its [ingested_at] next to its values.  A row holds the values
    bound to the parameters of the statement that wrote it; how the driver
    renders a [Decimal] into the store's [numeric] type is outside the
    model. *)
Record Store : Type := {
  raw_table : gmap (str * str) (RawMetrics * datetime);
  mart_table : gmap (date * str * str) (Decimal * datetime)
}.

Section Upsert.
Context {K V : Type} `{Countable K}.

(** One row of [INSERT ... ON CONFLICT (key) DO UPDATE SET col =
    EXCLUDED.col] for every non-key column. *)
Definition upsert (t : gmap K V) (kv : K * V) : gmap K V :=
  <[kv.1 := kv.2]> t.

(** One statement: the store refuses a statement that proposes the same
    key twice. *)
Definition execute_statement (rows : list (K * V)) (t : gmap K V)
  : result (gmap K V) :=
  if bool_decide (NoDup (rows.*1)) then Ok (foldl upsert t rows)
  else Raise CardinalityViolation.

Fixpoint paginate (fuel : nat) (page_size : nat) (rows : list (K * V))
  : list (list (K * V)) :=
  match fuel with
  | O => []
  | S fuel' =>
      match rows with
      | [] => []
      | _ => take page_size rows :: paginate fuel' page_size (drop page_size rows)
      end
  end.

(** [extras.execute_values(cur, sql, rows)]: one statement per page of
    100 rows. *)
Definition execute_values (rows : list (K * V)) (t : gmap K V)
  : result (gmap K V) :=
  fold_result (fun t page => execute_statement page t)
    (paginate (length rows) 100 rows) t.

End Upsert.

Record Summary : Type := {
  rows_loaded : nat;
  distinct_nace : nat;
  min_date : option date;
  max_date : option date;
  source_mode : str
}.

Definition date_min (l : list date) : option date :=
  match l with
  | [] => None
  | d :: l' => Some (fold_left (fun a b => if date_leb b a then b else a) l' d)
  end.

Definition date_max (l : list date) : option date :=
  match l with
  | [] => None
  | d :: l' => Some (fold_left (fun a b => if date_leb a b then b else a) l' d)
  end.

Section IngestStore.
Context {U : Unicode}.

(** What the [csv] module (dialect sniffing and [csv.reader]) makes of
    the source text. *)
Variable csv_rows : str -> list (list str).

Definition _parse_csv_rows (text : str) : result (list ParsedRow) :=
  parse_rows_raw (csv_rows text).

Definition raw_row (ingested_at : datetime) (row : ParsedRow)
  : (str * str) * (RawMetrics * datetime) :=
  ((period_key row, nace_key row),
   ({| raw_uidxnom := dict_get (values row) (lit "uidxnom");
       raw_uidxreal := dict_get (values row) (lit "uidxreal");
       raw_beschidx := dict_get (values row) (lit "beschidx");
       raw_uidxnsb := dict_get (values row) (lit "uidxnsb");
       raw_uidxrsb := dict_get (values row) (lit "uidxrsb") |},
    ingested_at)).

(** The inner loop over [METRIC_COLUMNS] for a row with a date. *)
Definition unpivot (ingested_at : datetime) (period_date : date)
  (nace_code : str) (vals : gmap str (option Decimal))
  : list ((date * str * str) * (Decimal * datetime)) :=
  flat_map
    (fun c : str * str =>
       match dict_get vals c.2 with
       | None => []
       | Some value => [((period_date, nace_code, c.1), (value, ingested_at))]
       end)
    METRIC_COLUMNS.

(** The mart records that one parsed row appends to [mart_rows]. *)
Definition mart_rows_of (ingested_at : datetime) (row : ParsedRow)
  : result (list ((date * str * str) * (Decimal * datetime))) :=
  period_date ← _period_to_date (period_key row);
  match period_date with
  | None => Ok []
  | Some period_date =>
      let nace_code := replace (lit "NACEIDX-") (lit "") (nace_key row) in
      Ok (unpivot ingested_at period_date nace_code (values row))
  end.

Fixpoint derive_mart_rows (ingested_at : datetime) (parsed_rows : list ParsedRow)
  : result (list ((date * str * str) * (Decimal * datetime))) :=
  match parsed_rows with
  | [] => Ok []
  | row :: rest =>
      here ← mart_rows_of ingested_at row;
      later ← derive_mart_rows ingested_at rest;
      Ok (here ++ later)
  end.

(** The body of [with get_conn() as conn]. *)
Definition ingest_transaction (parsed_rows : list ParsedRow)
  (ingested_at : datetime) (db : Store) : result Store :=
  raw' ← execute_values (raw_row ingested_at <$> parsed_rows) (raw_table db);
  mart_rows ← derive_mart_rows ingested_at parsed_rows;
  mart' ← execute_values mart_rows (mart_table db);
  Ok {| raw_table := raw'; mart_table := mart' |}.

Fixpoint valid_dates (parsed_rows : list ParsedRow) : result (list date) :=
  match parsed_rows with
  | [] => Ok []
  | row :: rest =>
      d ← _period_to_date (period_key row);
      ds ← valid_dates rest;
      Ok (match d with Some d => d :: ds | None => ds end)
  end.

Definition summarize (mode : str) (parsed_rows : list ParsedRow)
  : result Summary :=
  ds ← valid_dates parsed_rows;
  Ok {| rows_loaded := length parsed_rows;
        distinct_nace :=
          size (list_to_set (nace_key <$> parsed_rows) : gset str);
        min_date := date_min ds;
        max_date := date_max ds;
        source_mode := mode |}.

(** [ingest] once the rows are parsed.  The transaction commits when its
    body returns and rolls back when it raises, so the store after a
    failed call is the store before it. *)
Definition ingest_rows (mode : str) (parsed_rows : list ParsedRow)
  (ingested_at : datetime) (db : Store) : Store * result Summary :=
  match parsed_rows with
  | [] =>
      (db, Ok {| rows_loaded := 0; distinct_nace := 0; min_date := None;
                 max_date := None; source_mode := mode |})
  | _ =>
      match ingest_transaction parsed_rows ingested_at db with
      | Ok db' => (db', summarize mode parsed_rows)
      | Raise e => (db, Raise e)
      end
  end.

(** [ingest(mode)] on the text that [_load_source(mode)] returned, at the
    time [ingested_at], against the store [db]. *)
Definition ingest (mode : str) (source_text : str) (ingested_at : datetime)
  (db : Store) : Store * result Summary :=
  match _parse_csv_rows source_text with
  | Ok parsed_rows => ingest_rows mode parsed_rows ingested_at db
  | Raise e => (db, Raise e)
  end.

End IngestStore.

(** ** [app/main.py] *)

Definition ALLOWED_METRICS : list str :=
  [lit "uidxnom"; lit "uidxreal"; lit "beschidx"; lit "uidxnsb"; lit "uidxrsb"].

Definition _validate_metric (metric : str) : result str :=
  if existsb (str_eqb metric) ALLOWED_METRICS then Ok metric
  else Raise (HTTPException 400).

#[global] Instance Decimal_eq_dec : EqDecision Decimal.
Proof. solve_decision. Defined.

(** [ORDER BY period_date DESC] on rows whose date is given by [f]. *)
Definition date_desc {A : Type} (f : A -> date) (a b : A) : Prop :=
  date_leb (f b) (f a) = true.

(** The rows of [marts.trade_index] that the query of [get_latest]
    selects, in the order the table happens to list them. *)
Definition latest_matching (mart : gmap (date * str * str) (Decimal * datetime))
  (nace metric : str) : list (date * Decimal) :=
  omap
    (fun kv : (date * str * str) * (Decimal * datetime) =>
       if str_eqb kv.1.1.2 nace && str_eqb kv.1.2 metric
       then Some (kv.1.1.1, kv.2.1) else None)
    (map_to_list mart).

(** What [fetch_all] may return for the query of [get_latest]: the
    matching rows in descending date order, cut to two. *)
Definition select_latest (mart : gmap (date * str * str) (Decimal * datetime))
  (nace metric : str) (rows : list (date * Decimal)) : Prop :=
  exists sorted,
    sorted ≡ₚ latest_matching mart nace metric
    /\ Sorted (date_desc fst) sorted
    /\ rows = take 2 sorted.

(** The rows that the query of [nominal_vs_real] selects. *)
Definition nominal_real_matching
  (mart : gmap (date * str * str) (Decimal * datetime)) (nace : str)
  : list (date * str * Decimal) :=
  omap
    (fun kv : (date * str * str) * (Decimal * datetime) =>
       if str_eqb kv.1.1.2 nace
          && (str_eqb kv.1.2 (lit "uidxnom") || str_eqb kv.1.2 (lit "uidxreal"))
       then Some (kv.1.1.1, kv.1.2, kv.2.1) else None)
    (map_to_list mart).

(** What [fetch_all] may return for it: the matching rows in descending
    date order; rows of one date come in any order. *)
Definition select_nominal_real
  (mart : gmap (date * str * str) (Decimal * datetime)) (nace : str)
  (rows : list (date * str * Decimal)) : Prop :=
  rows ≡ₚ nominal_real_matching mart nace
  /\ Sorted (date_desc (fun r => r.1.1)) rows.

Record LatestResponse : Type := {
  latest_nace : str;
  latest_metric : str;
  latest_date : date;
  latest_value : float;
  previous_value : option float;
  delta : option float;
  delta_percent : option float
}.

Record NominalVsRealResponse : Type := {
  nvr_nace : str;
  nvr_period_date : date;
  nvr_uidxnom : option float;
  nvr_uidxreal : option float;
  nvr_gap : option float;
  nvr_caveat : str
}.

Section Endpoints.

(** [float(row["value"])] on a value read back from the store. *)
Variable to_float : Decimal -> float.

(** [get_latest] on the rows that its query returned. *)
Definition get_latest (rows : list (date * Decimal)) (nace metric : str)
  : result LatestResponse :=
  metric ← _validate_metric metric;
  match rows with
  | [] => Raise (HTTPException 404)
  | latest :: _ =>
      let previous := rows !! 1%nat in
      let latest_value := to_float latest.2 in
      let previous_value :=
        match previous with
        | Some previous => Some (to_float previous.2)
        | None => None
        end in
      let delta :=
        match previous_value with
        | Some p => Some (latest_value - p)%float
        | None => None
        end in
      let delta_percent :=
        match previous_value, delta with
        | Some p, Some d =>
            if PrimFloat.eqb p 0 then None else Some (d / p * 100)%float
        | _, _ => None
        end in
      Ok {| latest_nace := nace;
            latest_metric := metric;
            latest_date := latest.1;
            latest_value := latest_value;
            previous_value := previous_value;
            delta := delta;
            delta_percent := delta_percent |}
  end.

(** [{row["metric"]: float(row["value"]) for row in latest_rows}] *)
Definition metric_map_of (latest_rows : list (date * str * Decimal))
  : gmap str float :=
  foldl (fun m (row : date * str * Decimal) => <[row.1.2 := to_float row.2]> m)
        ∅ latest_rows.

(** [nominal_vs_real] on the rows that its query returned. *)
Definition nominal_vs_real (rows : list (date * str * Decimal)) (nace : str)
  : result NominalVsRealResponse :=
  match rows with
  | [] => Raise (HTTPException 404)
  | first :: _ =>
      let latest_date := first.1.1 in
      let latest_rows :=
        List.filter (fun row : date * str * Decimal =>
                       bool_decide (row.1.1 = latest_date)) rows in
      let metric_map := metric_map_of latest_rows in
      let uidxnom := metric_map !! lit "uidxnom" in
      let uidxreal := metric_map !! lit "uidxreal" in
      let gap :=
        match uidxnom, uidxreal with
        | Some a, Some b => Some (a - b)%float
        | _, _ => None
        end in
      Ok {| nvr_nace := nace;
            nvr_period_date := latest_date;
            nvr_uidxnom := uidxnom;
            nvr_uidxreal := uidxreal;
            nvr_gap := gap;
            nvr_caveat :=
              lit "Nominal vs. real gap is indicative; interpret with context." |}
  end.

End Endpoints.

(** ** Reference definitions and sample inputs *)

Section Reference.
Context {U : Unicode}.


(** The key shapes that the specification lists for the period
    normaliser: a dashed key with a trailing 6-digit year-month, a
    trailing 2-digit month with a leading 4-digit year, a trailing bare
    4-digit year; a plain 6-digit year-month; a plain 4-digit year. *)
Definition tolerated_shape (key : str) : bool :=
  let s := strip key in
  if contains_char 45 s then
    let parts := split 45 s in
    fullmatch_digits 6 (List.last parts [])
    || (fullmatch_digits 2 (List.last parts [])
        && fullmatch_digits 4 (nth 0 parts []))
    || fullmatch_digits 4 (List.last parts [])
  else fullmatch_digits 6 s || fullmatch_digits 4 s.



(** [Y] is a four-digit year in the range of [date], denoting [y]. *)
Definition year_digits (Y : str) (y : N) : Prop :=
  fullmatch_digits 4 Y = true /\ digits_value 0 Y = Some y /\ 1 <= y <= 9999.

End Reference.

(** Stripping a prefix, as the specification words the category code:
    [s] without its leading [prefix], or [s] itself when it has none. *)
Definition strip_prefix (prefix s : str) : str :=
  if startswith s prefix then drop (length prefix) s else s.

(** [old] does not occur in [s]. *)
Definition no_occurrence (old s : str) : Prop :=
  forall pre post, s <> pre ++ old ++ post.

(** The number of metrics of [METRIC_COLUMNS] that a row carries. *)
Definition present_metrics (vals : gmap str (option Decimal)) : nat :=
  length (List.filter
            (fun c : str * str =>
               match dict_get vals c.2 with Some _ => true | None => false end)
            METRIC_COLUMNS).

(** A table row with its [ingested_at] replaced. *)
Definition retime {K A : Type} (t : datetime) (kv : K * (A * datetime))
  : K * (A * datetime) :=
  (kv.1, (kv.2.1, t)).

Definition untimed (db : Store)
  : gmap (str * str) RawMetrics * gmap (date * str * str) Decimal :=
  (fst <$> raw_table db, fst <$> mart_table db).

(** The date the specification compares at: the most recent one at which
    both [uidxnom] and [uidxreal] are stored for the category. *)
Definition most_recent_shared_date
  (mart : gmap (date * str * str) (Decimal * datetime)) (nace : str)
  : option date :=
  date_max
    (omap
       (fun kv : (date * str * str) * (Decimal * datetime) =>
          if str_eqb kv.1.1.2 nace && str_eqb kv.1.2 (lit "uidxnom")
             && bool_decide (is_Some (mart !! (kv.1.1.1, nace, lit "uidxreal")))
          then Some kv.1.1.1 else None)
       (map_to_list mart)).

(** [float(d)] for an integral decimal below 2^53, where it is exact;
    the sample tables below hold no other value. *)
Definition float_of_integral (d : Decimal) : float :=
  match d with
  | DFinite s c 0 =>
      let f := PrimFloat.of_uint63 (Uint63.of_Z (Z.of_N c)) in
      if s then (- f)%float else f
  | DFinite _ _ _ => nan
  | DInfinity s => if s then neg_infinity else infinity
  | DNaN _ _ _ => nan
  end.

Definition sample_store : Store := {| raw_table := ∅; mart_table := ∅ |}.

(** Nominal index stored for January and February 2023, real index for
    January only. *)
Definition sample_mart : gmap (date * str * str) (Decimal * datetime) :=
  <[(Date 2023 2 1, lit "47", lit "uidxnom") := (DFinite false 105 0, 0%Z)]>
  (<[(Date 2023 1 1, lit "47", lit "uidxnom") := (DFinite false 103 0, 0%Z)]>
   (<[(Date 2023 1 1, lit "47", lit "uidxreal") := (DFinite false 101 0, 0%Z)]>
    ∅)).

Definition sample_nominal_real_rows : list (date * str * Decimal) :=
  [ (Date 2023 2 1, lit "uidxnom", DFinite false 105 0);
    (Date 2023 1 1, lit "uidxreal", DFinite false 101 0);
    (Date 2023 1 1, lit "uidxnom", DFinite false 103 0) ].

Definition sample_header : list str :=
  [ lit "C-TI-0"; lit "C-NACEIDX-0"; lit "F-UIDXNOM"; lit "F-UIDXREAL";
    lit "F-BESCHIDX"; lit "MONAT" ].



Definition sample_values_3_of_5 : gmap str (option Decimal) :=
  <[lit "uidxnom" := Some (DFinite false 1015 (-1))]>
  (<[lit "uidxreal" := None]>
   (<[lit "beschidx" := Some (DFinite false 100 0)]>
    (<[lit "uidxnsb" := None]>
     (<[lit "uidxrsb" := Some (DNaN false false 0)]> ∅)))).

Definition sample_row (key : string) : ParsedRow :=
  {| period_key := lit key;
     nace_key := lit "NACEIDX-47";
     values := sample_values_3_of_5 |}.

(** The row that [_parse_csv_rows] makes of the cells 202301, NACEIDX-47,
    nan, Infinity, 100 under [sample_header]. *)
Definition special_values_row : ParsedRow :=
  {| period_key := lit "202301";
     nace_key := lit "NACEIDX-47";
     values :=
       <[lit "period_key" := Some (DFinite false 202301 0)]>
       (<[lit "nace_key" := None]>
        (<[lit "uidxnom" := Some (DNaN false false 0)]>
         (<[lit "uidxreal" := Some (DInfinity false)]>
          (<[lit "beschidx" := Some (DFinite false 100 0)]>
           (<[lit "uidxnsb" := None]>
            (<[lit "uidxrsb" := None]> ∅)))))) |}.

(** ** Further definitions *)

(** The number of decimal points, and of commas, in a string. *)
Definition dots (s : str) : nat := count_occ N.eq_dec s 46.

Definition commas (s : str) : nat := count_occ N.eq_dec s 44.

(** A string made of whitespace only. *)
Definition blank (s : str) : Prop := Forall (fun c => isspace c = true) s.

(** [_] read as [-], the last step of [_normalize_header] on one
    character. *)
Definition dash_for_underscore (c : N) : N := if c =? 95 then 45 else c.

(** Column [j] has, in the first 200 data rows, a cell that starts with
    [prefix] once stripped. *)
Definition has_sentinel (prefix : str) (data_rows : list (list str)) (j : nat)
  : Prop :=
  exists row c,
    In row (take 200 data_rows) /\ cell row j = Some c
    /\ startswith (strip c) prefix = true.


Section ParsedRows.
Context {U : Unicode}.




End ParsedRows.

Section IngestEndpoint.
Context {U : Unicode}.

Variable csv_rows : str -> list (list str).

(** What reading the bundled sample file gives, and what the request to
    the live URL gives: the text, or the exception raised. *)
Variables mock_source live_source : result str.




End IngestEndpoint.

(** What the [csv] module makes of a source without quoting whose lines
    end in a line feed and whose cells are separated by semicolons. *)
Definition plain_csv_rows (text : str) : list (list str) :=
  map (split 59) (split 10 text).

Definition sample_text : str :=
  lit "C-TI-0;C-NACEIDX-0;F-UIDXNOM;F-UIDXREAL;F-BESCHIDX"
  ++ 10 :: lit "TIIDX-202301;NACEIDX-47;101,5;99,5;100"
  ++ 10 :: lit "TIIDX-202302;NACEIDX-47;102,5;;100"
  ++ 10 :: lit "ohne Datum;NACEIDX-45;1;2;3".


(** A store that already holds January 2023 for category 47 and a row of
    category 99. *)
Definition stocked_store : Store :=
  {| raw_table :=
       <[(lit "TIIDX-202301", lit "NACEIDX-47") :=
           ({| raw_uidxnom := Some (DFinite false 100 0);
               raw_uidxreal := None; raw_beschidx := None;
               raw_uidxnsb := None; raw_uidxrsb := None |}, 1%Z)]>
       (<[(lit "TIIDX-202212", lit "NACEIDX-99") :=
            ({| raw_uidxnom := Some (DFinite false 90 0);
                raw_uidxreal := None; raw_beschidx := None;
                raw_uidxnsb := None; raw_uidxrsb := None |}, 1%Z)]> ∅);
     mart_table :=
       <[(Date 2023 1 1, lit "47", lit "uidxnom") :=
           (DFinite false 100 0, 1%Z)]>
       (<[(Date 2022 12 1, lit "99", lit "uidxnom") :=
            (DFinite false 90 0, 1%Z)]> ∅) |}.

(** Both indices of category 47 stored for January 2023. *)
Definition january_mart : gmap (date * str * str) (Decimal * datetime) :=
  <[(Date 2023 1 1, lit "47", lit "uidxnom") := (DFinite false 103 0, 0%Z)]>
  (<[(Date 2023 1 1, lit "47", lit "uidxreal") := (DFinite false 101 0, 0%Z)]>
   ∅).

Section Failures.
Context {U : Unicode}.

(** Some parsed row has a period key that holds an impossible date. *)
Definition bad_period (rows : list ParsedRow) : Prop :=
  exists r, In r rows /\ _period_to_date (period_key r) = Raise ValueError.

(** The rows propose a key of the raw table twice, or their mart records
    a key of the mart. *)
Definition repeated_key (t : datetime) (rows : list ParsedRow) : Prop :=
  ~ NoDup ((raw_row t <$> rows).*1)
  \/ exists recs, derive_mart_rows t rows = Ok recs /\ ~ NoDup (recs.*1).

End Failures.

(** A string without its spaces. *)
Definition unspaced (s : str) : str :=
  List.filter (fun c => negb (c =? 32)) s.

(** A character of a plain numeral: a Basic Latin digit, a comma, a
    minus sign or a decimal point. *)
Definition numeral_sign (c : N) : bool :=
  ascii_digit c || ((44 <=? c) && (c <=? 46)).

(** The sign of a numeral and what follows it, as [Decimal_of_str] takes
    them apart. *)
Definition split_sign (a : str) : bool * str :=
  match a with
  | 45 :: r => (true, r)
  | 43 :: r => (false, r)
  | _ => (false, a)
  end.

(** A plain numeral: an optional minus sign, digits, and, when [frac] is
    given, the separator [sep] and more digits. *)
Definition plain_numeral (neg : bool) (a : str) (sep : N) (frac : option str)
  : str :=
  (if neg then [45] else [])
  ++ a ++ match frac with Some b => sep :: b | None => [] end.

(** ** [_parse_date] of [app/main.py] *)

Definition is_leap (y : N) : bool :=
  (y mod 4 =? 0) && (negb (y mod 100 =? 0) || (y mod 400 =? 0)).

Definition days_in_month (y m : N) : N :=
  if m =? 2 then (if is_leap y then 29 else 28)
  else if (m =? 4) || (m =? 6) || (m =? 9) || (m =? 11) then 30
  else 31.

(** [date(year, month, day)] *)
Definition make_date (y m d : N) : result date :=
  if (1 <=? y) && (y <=? 9999) && (1 <=? m) && (m <=? 12)
     && (1 <=? d) && (d <=? days_in_month y m)
  then Ok (Date y m d) else Raise ValueError.

Section ParseDate.
Context {U : Unicode}.

(** The day group of the [%d] directive,
    [3[0-1]|[1-2]\d|0[1-9]|[1-9]| [1-9]], tried in that order at the
    head of [s], with the day it denotes. *)
Definition day_group (s : str) : option (N * str) :=
  match s with
  | [] => None
  | c :: r =>
      let single :=
        if (49 <=? c) && (c <=? 57) then Some (c - 48, r) else None in
      match r with
      | c2 :: r2 =>
          if (c =? 51) && (48 <=? c2) && (c2 <=? 49)
          then Some (30 + (c2 - 48), r2)
          else if (49 <=? c) && (c <=? 50) then
            match decimal c2 with
            | Some v => Some (10 * (c - 48) + v, r2)
            | None => single
            end
          else if (c =? 48) && (49 <=? c2) && (c2 <=? 57)
          then Some (c2 - 48, r2)
          else if (c =? 32) && (49 <=? c2) && (c2 <=? 57)
          then Some (c2 - 48, r2)
          else single
      | [] => single
      end
  end.

(** [datetime.strptime(s, "%Y-%m-%d").date()]: four decimal digits, a
    dash, the month group, a dash, the day group, the end of the string;
    then the date must exist. *)
Definition strptime_Ymd (s : str) : result date :=
  if fullmatch_digits 4 (take 4 s) then
    match drop 4 s with
    | 45 :: s1 =>
        match month_group s1 with
        | Some (m, 45 :: s2) =>
            match day_group s2 with
            | Some (d, []) => y ← int (take 4 s); make_date y m d
            | _ => Raise ValueError
            end
        | _ => Raise ValueError
        end
    | _ => Raise ValueError
    end
  else Raise ValueError.

Definition _parse_date (value : option str) : result (option date) :=
  match value with
  | None => Ok None
  | Some value =>
      match strptime_Ymd value with
      | Ok d => Ok (Some d)
      | Raise ValueError => Raise (HTTPException 400)
      | Raise e => Raise e
      end
  end.

End ParseDate.

(** * Properties *)

(** ** Strings *)

Lemma str_eqb_eq (a b : str) : str_eqb a b = true <-> a = b.
Proof.
  revert b. induction a as [|x a IH]; intros [|y b]; simpl; try easy.
  rewrite andb_true_iff, N.eqb_eq, IH. split.
  - intros [-> ->]. reflexivity.
  - intros [= -> ->]. auto.
Qed.

Lemma str_eqb_refl (a : str) : str_eqb a a = true.
Proof. apply str_eqb_eq. reflexivity. Qed.

Lemma startswith_prefix (s p : str) : startswith s p = true <-> p `prefix_of` s.
Proof.
  revert s. induction p as [|x p IH]; intros s; simpl.
  - split; [intros _; apply prefix_nil | reflexivity].
  - destruct s as [|y s].
    + split; [discriminate | intros [k Hk]; discriminate].
    + rewrite andb_true_iff, N.eqb_eq, IH. split.
      * intros [-> [k ->]]. exists k. reflexivity.
      * intros [k [= -> ->]]. split; [reflexivity | exists k; reflexivity].
Qed.


Lemma lstrip_by_all (p : N -> bool) (s : str) :
  Forall (fun c => p c = true) s -> lstrip_by p s = [].
Proof.
  induction 1 as [|c s Hc _ IH]; simpl; [reflexivity|].
  rewrite Hc. exact IH.
Qed.

Lemma strip_whitespace (s : str) :
  Forall (fun c => isspace c = true) s -> strip s = [].
Proof.
  intros H. unfold strip. rewrite (lstrip_by_all _ _ H). reflexivity.
Qed.

(** ** The column resolver *)

Section Resolver.
Context {U : Unicode}.


Lemma resolve_loop_some (t : str) (fieldnames : list str) (name : str) :
  resolve_loop t fieldnames = Some name ->
  exists before after,
    fieldnames = before ++ name :: after
    /\ header_matches t name = true
    /\ Forall (fun n => header_matches t n = false) before.
Proof.
  induction fieldnames as [|x l IH]; simpl; [discriminate|].
  destruct (header_matches t x) eqn:Hx.
  - intros [= <-]. exists [], l. auto.
  - intros H. destruct (IH H) as (b & a & -> & Hm & Hb).
    exists (x :: b), a. auto.
Qed.



End Resolver.


(** ** The decimal parser *)

Section DecimalParser.
Context {U : Unicode}.

Lemma Decimal_of_str_raises (s : str) (e : exn) :
  Decimal_of_str s = Raise e -> e = InvalidOperation.
Proof.
  unfold Decimal_of_str.
  destruct (mapM numeral_char _) as [a|]; [|congruence].
  destruct (match a with
            | 45 :: r => (true, r)
            | 43 :: r => (false, r)
            | _ => (false, a)
            end) as [sign body].
  destruct (parse_number sign body); [discriminate|].
  destruct (parse_special sign body); [discriminate|congruence].
Qed.

Lemma parse_decimal_returns (raw : option str) :
  exists v, _parse_decimal raw = Ok v.
Proof.
  destruct raw as [s|]; simpl; [|eauto].
  destruct (negb (nonempty (strip s))); [eauto|].
  destruct (Decimal_of_str _) as [d|e] eqn:E; [eauto|].
  apply Decimal_of_str_raises in E. subst e. eauto.
Qed.

(** C5: the decimal parser returns on every input, never raising: absent
    for [None], for an empty or whitespace-only string and for a string
    that [Decimal] rejects after cleaning (such as [abc]); otherwise the
    number that [Decimal] reads in the cleaned string.  [1234,56] gives
    123456e-2, that is 1234.56, and [1,234] gives 1234e-3, that is 1.234. *)
Theorem parse_decimal_never_raises :
  (forall raw, exists v, _parse_decimal raw = Ok v)
  /\ _parse_decimal None = Ok None
  /\ (forall s, Forall (fun c => isspace c = true) s ->
        _parse_decimal (Some s) = Ok None)
  /\ (forall s e,
        Decimal_of_str
          (replace (lit ",") (lit ".") (replace (lit " ") (lit "") (strip s)))
          = Raise e ->
        _parse_decimal (Some s) = Ok None)
  /\ (forall s d,
        strip s <> [] ->
        Decimal_of_str
          (replace (lit ",") (lit ".") (replace (lit " ") (lit "") (strip s)))
          = Ok d ->
        _parse_decimal (Some s) = Ok (Some d))
  /\ _parse_decimal (Some (lit "")) = Ok None
  /\ _parse_decimal (Some (lit "abc")) = Ok None
  /\ _parse_decimal (Some (lit "1234,56"))
     = Ok (Some (DFinite false 123456 (-2)))
  /\ _parse_decimal (Some (lit "1,234")) = Ok (Some (DFinite false 1234 (-3))).
Proof.
  split; [exact parse_decimal_returns|].
  split; [reflexivity|].
  split.
  { intros s Hs. simpl. rewrite (strip_whitespace s Hs). reflexivity. }
  split.
  { intros s e E. simpl.
    destruct (negb (nonempty (strip s))); [reflexivity|].
    rewrite E. apply Decimal_of_str_raises in E. subst e. reflexivity. }
  split.
  { intros s d Hne E. simpl.
    destruct (strip s) as [|c r] eqn:Es; [congruence|].
    simpl. simpl in E. rewrite E. reflexivity. }
  repeat split; reflexivity.
Qed.

End DecimalParser.

Lemma parse_decimal_never_raises_witness :
  @_parse_decimal basic_latin (Some (lit "  ")) = Ok None
  /\ @_parse_decimal basic_latin (Some (lit "12x")) = Ok None
  /\ @_parse_decimal basic_latin (Some (lit " 1 234,5 "))
     = Ok (Some (DFinite false 12345 (-1))).
Proof.
  destruct (@parse_decimal_never_raises basic_latin)
    as (_ & _ & Hblank & Hbad & Hgood & _).
  split; [|split].
  - apply Hblank. repeat constructor.
  - apply (Hbad (lit "12x") InvalidOperation). reflexivity.
  - apply Hgood; [discriminate | reflexivity].
Defined.

(** ** The period-to-date normaliser *)

Lemma split_nonempty (sep : N) (s : str) : split sep s <> [].
Proof.
  destruct s as [|c s]; simpl; [discriminate|].
  destruct (c =? sep); [discriminate|].
  destruct (split sep s); discriminate.
Qed.

Lemma split_no_sep (sep : N) (s : str) :
  contains_char sep s = false -> split sep s = [s].
Proof.
  unfold contains_char. induction s as [|c s IH]; simpl; [reflexivity|].
  rewrite orb_false_iff, N.eqb_sym. intros [-> Hs].
  rewrite (IH Hs). reflexivity.
Qed.

Lemma split_app (sep : N) (p t : str) :
  split sep (p ++ sep :: t) = split sep p ++ split sep t.
Proof.
  induction p as [|c p IH]; simpl.
  - rewrite N.eqb_refl. reflexivity.
  - destruct (c =? sep); [rewrite IH; reflexivity|].
    rewrite IH. destruct (split sep p) as [|q qs] eqn:E; [|reflexivity].
    exfalso. exact (split_nonempty _ _ E).
Qed.

Lemma last_app_nonempty {A : Type} (l1 l2 : list A) (d : A) :
  l2 <> [] -> List.last (l1 ++ l2) d = List.last l2 d.
Proof.
  intros H. induction l1 as [|x l1 IH]; [reflexivity|].
  simpl. destruct (l1 ++ l2) eqn:E; [|exact IH].
  apply app_eq_nil in E. tauto.
Qed.

Lemma contains_char_app (sep : N) (p t : str) :
  contains_char sep (p ++ sep :: t) = true.
Proof.
  unfold contains_char. rewrite existsb_app. simpl.
  rewrite N.eqb_refl, orb_true_r. reflexivity.
Qed.

Lemma dash_clean_plain (s : str) :
  contains_char 45 s = false -> dash_clean s = s.
Proof. intros H. unfold dash_clean. rewrite H. reflexivity. Qed.

Lemma dash_clean_trailing6 (p t : str) :
  contains_char 45 t = false -> length t = 6%nat ->
  dash_clean (p ++ 45 :: t) = t.
Proof.
  intros Ht Hl. unfold dash_clean.
  rewrite contains_char_app, split_app, (split_no_sep _ _ Ht).
  rewrite last_app_nonempty by discriminate. simpl.
  rewrite Hl. reflexivity.
Qed.

Lemma dash_clean_trailing4 (p t : str) :
  contains_char 45 t = false -> length t = 4%nat ->
  dash_clean (p ++ 45 :: t) = t.
Proof.
  intros Ht Hl. unfold dash_clean.
  rewrite contains_char_app, split_app, (split_no_sep _ _ Ht).
  rewrite last_app_nonempty by discriminate. simpl.
  rewrite Hl. reflexivity.
Qed.

Lemma dash_clean_year_month (Y M : str) :
  contains_char 45 Y = false -> contains_char 45 M = false ->
  length Y = 4%nat -> length M = 2%nat ->
  dash_clean (Y ++ 45 :: M) = Y ++ M.
Proof.
  intros HY HM HlY HlM. unfold dash_clean.
  rewrite contains_char_app, split_app, (split_no_sep _ _ HY),
    (split_no_sep _ _ HM).
  simpl. rewrite HlM, HlY. reflexivity.
Qed.

Section Period.
Context {U : Unicode}.

Lemma isdecimal_not_dash (c : N) : isdecimal_char c = true -> (45 =? c) = false.
Proof.
  unfold isdecimal_char, decimal. intros H.
  destruct (N.eqb_spec 45 c) as [<-|]; [discriminate H | reflexivity].
Qed.

Lemma fullmatch_digits_length (n : nat) (s : str) :
  fullmatch_digits n s = true -> length s = n.
Proof.
  unfold fullmatch_digits. rewrite andb_true_iff, Nat.eqb_eq. tauto.
Qed.

Lemma fullmatch_digits_no_dash (n : nat) (s : str) :
  fullmatch_digits n s = true -> contains_char 45 s = false.
Proof.
  unfold fullmatch_digits, contains_char. rewrite andb_true_iff.
  intros [_ H]. induction s as [|c s IH]; [reflexivity|].
  cbn [existsb forallb] in *. apply andb_true_iff in H as [Hc Hs].
  rewrite (isdecimal_not_dash c Hc). auto.
Qed.

Lemma fullmatch_digits_app (n k : nat) (a b : str) :
  fullmatch_digits n a = true -> fullmatch_digits k b = true ->
  fullmatch_digits (n + k) (a ++ b) = true.
Proof.
  unfold fullmatch_digits. rewrite !andb_true_iff, !Nat.eqb_eq.
  intros [<- Ha] [<- Hb]. rewrite length_app, forallb_app, Ha, Hb. auto.
Qed.

Lemma month_digits (m : N) :
  1 <= m <= 12 ->
  fullmatch_digits 2 (format_02d m) = true
  /\ month_group (format_02d m) = Some (m, []).
Proof.
  intros H.
  assert (m = 1 \/ m = 2 \/ m = 3 \/ m = 4 \/ m = 5 \/ m = 6 \/ m = 7
          \/ m = 8 \/ m = 9 \/ m = 10 \/ m = 11 \/ m = 12) as Hm by lia.
  repeat (destruct Hm as [-> | Hm]); try subst m; split; reflexivity.
Qed.

Lemma int_year (Y : str) (y : N) : year_digits Y y -> int Y = Ok y.
Proof.
  intros (Hf & Hv & _). unfold int. rewrite Hv.
  destruct Y; [discriminate Hf | reflexivity].
Qed.

Lemma period_of_year_month (key Y : str) (y m : N) :
  year_digits Y y -> 1 <= m <= 12 ->
  dash_clean (strip key) = Y ++ format_02d m ->
  _period_to_date key = Ok (Some (Date y m 1)).
Proof.
  intros HY Hm E. unfold _period_to_date. rewrite E.
  destruct (month_digits m Hm) as [HM HG].
  pose proof HY as (HfY & _ & Hy).
  pose proof (fullmatch_digits_app 4 2 _ _ HfY HM) as HYM.
  change (4 + 2)%nat with 6%nat in HYM. rewrite HYM.
  unfold strptime_Ym.
  pose proof (fullmatch_digits_length _ _ HfY) as HlY.
  rewrite take_app_length' by (symmetry; exact HlY).
  rewrite drop_app_length' by (symmetry; exact HlY).
  rewrite HfY, HG, (int_year Y y HY). simpl.
  unfold first_of_month.
  destruct (N.leb_spec 1 y); [|lia].
  destruct (N.leb_spec y 9999); [|lia]. reflexivity.
Qed.

Lemma period_of_year (key Y : str) (y : N) :
  year_digits Y y ->
  dash_clean (strip key) = Y ->
  _period_to_date key = Ok (Some (Date y 1 1)).
Proof.
  intros HY E. unfold _period_to_date. rewrite E.
  pose proof HY as (HfY & _ & Hy).
  pose proof (fullmatch_digits_length _ _ HfY) as HlY.
  assert (fullmatch_digits 6 Y = false) as ->.
  { unfold fullmatch_digits. rewrite HlY. reflexivity. }
  rewrite HfY. unfold strptime_Y.
  rewrite firstn_all2 by lia.
  rewrite skipn_all2 by lia.
  rewrite HfY, (int_year Y y HY). simpl.
  unfold first_of_month.
  destruct (N.leb_spec 1 y); [|lia].
  destruct (N.leb_spec y 9999); [|lia]. reflexivity.
Qed.

(** The normaliser ends in a date, in unresolved, or in [ValueError]. *)
Lemma period_to_date_outcome (key : str) :
  (exists r, _period_to_date key = Ok r)
  \/ _period_to_date key = Raise ValueError.
Proof.
  assert (forall y m, (exists d, first_of_month y m = Ok d)
                      \/ first_of_month y m = Raise ValueError) as Hfirst.
  { intros y m. unfold first_of_month.
    destruct ((1 <=? y) && (y <=? 9999)); eauto. }
  assert (forall s, int s = Raise ValueError \/ exists n, int s = Ok n) as Hint.
  { intros s. unfold int. destruct s; [auto|].
    destruct (digits_value 0 _); eauto. }
  unfold _period_to_date.
  destruct (fullmatch_digits 6 _).
  - unfold strptime_Ym. destruct (fullmatch_digits 4 _); [|auto].
    destruct (month_group _) as [[m [|c r]]|]; auto.
    destruct (Hint (take 4 (dash_clean (strip key)))) as [->|[y ->]]; [auto|].
    simpl. destruct (Hfirst y m) as [[d ->]| ->]; simpl; eauto.
  - destruct (fullmatch_digits 4 _); [|eauto].
    unfold strptime_Y. destruct (fullmatch_digits 4 _); [|auto].
    destruct (drop 4 _); [|auto].
    destruct (Hint (take 4 (dash_clean (strip key)))) as [->|[y ->]]; [auto|].
    simpl. destruct (Hfirst y 1) as [[d ->]| ->]; simpl; eauto.
Qed.

(** C6, as amended: the four sample keys map to the dates given; a key
    that is, once stripped, a four-digit year between 1 and 9999 followed
    by a month 01 to 12 -- plain, after a dashed prefix, or as year, dash,
    month -- maps to the first day of that month; a four-digit year
    between 1 and 9999, plain or after a dashed prefix, maps to January 1
    of that year; and a key maps to unresolved whenever its form after
    the dash rule (the last dash-separated part if it has six characters,
    the first two parts joined if the last has two characters and the first
    four, the last part if it has four characters) is neither six nor four
    decimal digits. *)
Theorem period_to_date_shapes :
  _period_to_date (lit "202301") = Ok (Some (Date 2023 1 1))
  /\ _period_to_date (lit "2023") = Ok (Some (Date 2023 1 1))
  /\ _period_to_date (lit "TIIDX-202312") = Ok (Some (Date 2023 12 1))
  /\ _period_to_date (lit "2023-01") = Ok (Some (Date 2023 1 1))
  /\ (forall key Y y m p,
        year_digits Y y -> 1 <= m <= 12 ->
        strip key = Y ++ format_02d m
        \/ strip key = p ++ 45 :: Y ++ format_02d m
        \/ strip key = Y ++ 45 :: format_02d m ->
        _period_to_date key = Ok (Some (Date y m 1)))
  /\ (forall key Y y p,
        year_digits Y y ->
        strip key = Y \/ strip key = p ++ 45 :: Y ->
        _period_to_date key = Ok (Some (Date y 1 1)))
  /\ (forall key,
        fullmatch_digits 6 (dash_clean (strip key)) = false ->
        fullmatch_digits 4 (dash_clean (strip key)) = false ->
        _period_to_date key = Ok None).
Proof.
  repeat (split; [reflexivity|]).
  split; [|split].
  - intros key Y y m p HY Hm Hk.
    apply (period_of_year_month key Y y m HY Hm).
    destruct (month_digits m Hm) as [HM _].
    pose proof HY as (HfY & _).
    pose proof (fullmatch_digits_app 4 2 _ _ HfY HM) as HYM.
    destruct Hk as [-> | [-> | ->]].
    + apply dash_clean_plain. exact (fullmatch_digits_no_dash _ _ HYM).
    + apply dash_clean_trailing6.
      * exact (fullmatch_digits_no_dash _ _ HYM).
      * exact (fullmatch_digits_length _ _ HYM).
    + apply dash_clean_year_month.
      * exact (fullmatch_digits_no_dash _ _ HfY).
      * exact (fullmatch_digits_no_dash _ _ HM).
      * exact (fullmatch_digits_length _ _ HfY).
      * exact (fullmatch_digits_length _ _ HM).
  - intros key Y y p HY Hk.
    apply (period_of_year key Y y HY).
    pose proof HY as (HfY & _).
    destruct Hk as [-> | ->].
    + apply dash_clean_plain. exact (fullmatch_digits_no_dash _ _ HfY).
    + apply dash_clean_trailing4.
      * exact (fullmatch_digits_no_dash _ _ HfY).
      * exact (fullmatch_digits_length _ _ HfY).
  - intros key H6 H4. unfold _period_to_date. rewrite H6, H4. reflexivity.
Qed.

(** C2, at its failing inputs: a six-digit key whose last two digits are
    no month, and the year 0000, make the normaliser raise [ValueError];
    a year cell 2023 with a month cell 13 produces such a key, and a run
    of [ingest] over a row that carries it ends in that error with the
    store as it was. *)
Theorem period_to_date_raises_on_bad_month :
  _period_to_date (lit "202313") = Raise ValueError
  /\ _period_to_date (lit "202300") = Raise ValueError
  /\ _period_to_date (lit "TIIDX-202313") = Raise ValueError
  /\ _period_to_date (lit "0000") = Raise ValueError
  /\ row_period_key (Some 1%nat) [lit "2023"; lit "13"] (lit "2023")
     = Ok (lit "202313")
  /\ forall mode ingested_at db,
       ingest_rows mode [sample_row "202313"] ingested_at db
       = (db, Raise ValueError).
Proof.
  repeat (split; [reflexivity|]).
  intros mode ingested_at db. vm_compute. reflexivity.
Qed.

End Period.

Lemma period_to_date_shapes_witness :
  @_period_to_date basic_latin (lit " X-202311 ") = Ok (Some (Date 2023 11 1))
  /\ @_period_to_date basic_latin (lit "A-B-1999") = Ok (Some (Date 1999 1 1))
  /\ @_period_to_date basic_latin (lit "2023-1") = Ok None.
Proof.
  destruct (@period_to_date_shapes basic_latin)
    as (_ & _ & _ & _ & Hym & Hy & Hnone).
  split; [|split].
  - apply (Hym (lit " X-202311 ") (lit "2023") 2023 11 (lit "X")).
    + repeat split; try reflexivity; lia.
    + lia.
    + right. left. reflexivity.
  - apply (Hy (lit "A-B-1999") (lit "1999") 1999 (lit "A-B")).
    + repeat split; try reflexivity; lia.
    + right. reflexivity.
  - apply Hnone; reflexivity.
Defined.

(** C6, as stated, fails: [2023-05-ab] has none of the tolerated shapes
    (its trailing part is no two-digit month), yet it is mapped to a
    date, because the month is read from the second dash-separated part. *)
Lemma period_to_date_untolerated_shape :
  @tolerated_shape basic_latin (lit "2023-05-ab") = false
  /\ @_period_to_date basic_latin (lit "2023-05-ab")
     = Ok (Some (Date 2023 5 1)).
Proof. split; reflexivity. Qed.

(** ** Month-index inference *)

Section MonthIndex.
Context {U : Unicode}.










End MonthIndex.



(** A cell that holds a superscript two passes [isdigit] and has no
    integer value: the scan for the month column ends in [ValueError]. *)
Lemma find_month_index_superscript :
  @isdigit latin1 [178] = true
  /\ @int latin1 [178] = Raise ValueError
  /\ @_find_month_index latin1 [[lit "2023"; [178]; lit "5"]]
       [lit "C-TI-0"; lit "EXP"; lit "MONAT"]
     = Raise ValueError.
Proof. repeat split; reflexivity. Qed.


(** ** Bulk upserts *)

Section UpsertFacts.
Context {K V : Type} `{Countable K}.

Lemma foldl_upsert_absent (rows : list (K * V)) (t : gmap K V) (k : K) :
  k ∉ rows.*1 -> foldl upsert t rows !! k = t !! k.
Proof.
  revert t. induction rows as [|x rows IH]; intros t Hk; [reflexivity|].
  rewrite fmap_cons, not_elem_of_cons in Hk. destruct Hk as [Hne Hk].
  simpl. rewrite (IH _ Hk). unfold upsert.
  apply lookup_insert_ne. congruence.
Qed.

Lemma foldl_upsert_present (rows : list (K * V)) (t t' : gmap K V) (k : K) :
  k ∈ rows.*1 -> foldl upsert t rows !! k = foldl upsert t' rows !! k.
Proof.
  revert t t'. induction rows as [|x rows IH]; intros t t' Hk.
  - inversion Hk.
  - simpl. destruct (decide (k ∈ rows.*1)) as [Hin|Hout].
    + apply IH. exact Hin.
    + rewrite !(foldl_upsert_absent _ _ _ Hout).
      rewrite fmap_cons, elem_of_cons in Hk.
      destruct Hk as [->|Hk]; [|contradiction].
      unfold upsert. rewrite !lookup_insert_eq. reflexivity.
Qed.

(** Replaying rows over their own result changes nothing. *)
Lemma foldl_upsert_idempotent (rows : list (K * V)) (t : gmap K V) :
  foldl upsert (foldl upsert t rows) rows = foldl upsert t rows.
Proof.
  apply map_eq. intros k. destruct (decide (k ∈ rows.*1)) as [Hin|Hout].
  - apply foldl_upsert_present. exact Hin.
  - rewrite !(foldl_upsert_absent _ _ _ Hout). reflexivity.
Qed.

(** Rows with the same keys overwrite every earlier write. *)
Lemma foldl_upsert_overwrite (rows1 rows2 : list (K * V)) (t : gmap K V) :
  rows1.*1 = rows2.*1 ->
  foldl upsert (foldl upsert t rows1) rows2 = foldl upsert t rows2.
Proof.
  intros Hkeys. apply map_eq. intros k.
  destruct (decide (k ∈ rows2.*1)) as [Hin|Hout].
  - apply foldl_upsert_present. exact Hin.
  - rewrite !(foldl_upsert_absent _ _ _ Hout).
    apply foldl_upsert_absent. rewrite Hkeys. exact Hout.
Qed.

Lemma paginate_concat (fuel n : nat) (rows : list (K * V)) :
  (0 < n)%nat -> (length rows <= fuel)%nat ->
  concat (paginate fuel n rows) = rows.
Proof.
  intros Hn. revert rows. induction fuel as [|fuel IH]; intros rows Hl.
  - destruct rows; [reflexivity | simpl in Hl; lia].
  - destruct rows as [|x rows]; [reflexivity|].
    cbn [paginate concat]. rewrite IH.
    + apply take_drop.
    + rewrite length_drop. simpl in *. lia.
Qed.

Lemma execute_pages_eq (pages : list (list (K * V))) (t : gmap K V) :
  fold_result (fun t page => execute_statement page t) pages t
  = if forallb (fun page => bool_decide (NoDup (page.*1))) pages
    then Ok (foldl upsert t (concat pages))
    else Raise CardinalityViolation.
Proof.
  revert t. induction pages as [|p pages IH]; intros t; [reflexivity|].
  cbn [fold_result forallb concat].
  replace (execute_statement p t)
    with (if bool_decide (NoDup (p.*1)) then Ok (foldl upsert t p)
          else Raise CardinalityViolation : result (gmap K V))
    by reflexivity.
  destruct (bool_decide (NoDup (p.*1))); simpl; [|reflexivity].
  rewrite IH, foldl_app. reflexivity.
Qed.

Lemma execute_values_eq (rows : list (K * V)) (t : gmap K V) :
  execute_values rows t
  = if forallb (fun page => bool_decide (NoDup (page.*1)))
         (paginate (length rows) 100 rows)
    then Ok (foldl upsert t rows)
    else Raise CardinalityViolation.
Proof.
  unfold execute_values. rewrite execute_pages_eq, paginate_concat by lia.
  reflexivity.
Qed.

Lemma paginate_fmap (g : K * V -> K * V) (fuel n : nat) (rows : list (K * V)) :
  paginate fuel n (g <$> rows) = fmap (M:=list) g <$> paginate fuel n rows.
Proof.
  revert rows. induction fuel as [|fuel IH]; intros rows; [reflexivity|].
  destruct rows as [|x rows]; [reflexivity|].
  change (paginate (S fuel) n (g <$> x :: rows))
    with (take n (g <$> x :: rows)
          :: paginate fuel n (drop n (g <$> x :: rows))).
  rewrite <- fmap_drop, IH, <- fmap_take. reflexivity.
Qed.

Lemma pages_checked_by_keys (g : K * V -> K * V) (rows : list (K * V)) :
  (forall x, (g x).1 = x.1) ->
  forallb (fun page => bool_decide (NoDup (page.*1)))
    (paginate (length (g <$> rows)) 100 (g <$> rows))
  = forallb (fun page => bool_decide (NoDup (page.*1)))
      (paginate (length rows) 100 rows).
Proof.
  intros Hg. rewrite length_fmap, paginate_fmap.
  induction (paginate (length rows) 100 rows) as [|p ps IH]; [reflexivity|].
  assert ((g <$> p).*1 = p.*1) as Hp.
  { rewrite <- list_fmap_compose. apply list_fmap_ext. intros i x _. apply Hg. }
  rewrite fmap_cons. cbn [forallb]. rewrite Hp, IH. reflexivity.
Qed.

End UpsertFacts.

Lemma fmap_fst_foldl_upsert {K A B : Type} `{Countable K}
  (rows : list (K * (A * B))) (t : gmap K (A * B)) :
  fst <$> foldl upsert t rows
  = foldl upsert (fst <$> t) (prod_map id fst <$> rows).
Proof.
  revert t. induction rows as [|x rows IH]; intros t; [reflexivity|].
  simpl. rewrite IH. unfold upsert at 2 4. rewrite fmap_insert. reflexivity.
Qed.

Lemma upsert_replay {K A : Type} `{Countable K}
  (rows : list (K * (A * datetime))) (t : datetime)
  (table : gmap K (A * datetime)) :
  fst <$> foldl upsert (foldl upsert table rows) (retime t <$> rows)
  = fst <$> foldl upsert table rows
  /\ foldl upsert (foldl upsert table rows) (retime t <$> rows)
     = foldl upsert table (retime t <$> rows).
Proof.
  split.
  - rewrite !fmap_fst_foldl_upsert.
    assert (prod_map id fst <$> (retime t <$> rows)
            = prod_map id fst <$> rows) as ->.
    { rewrite <- list_fmap_compose. apply list_fmap_ext.
      intros i [k [a ts]] _. reflexivity. }
    apply foldl_upsert_idempotent.
  - apply foldl_upsert_overwrite.
    rewrite <- list_fmap_compose. apply list_fmap_ext.
    intros i [k [a ts]] _. reflexivity.
Qed.

(** ** Ingestion *)

Section IngestFacts.
Context {U : Unicode}.

Lemma raw_rows_retime (t1 t2 : datetime) (rows : list ParsedRow) :
  raw_row t2 <$> rows = retime t2 <$> (raw_row t1 <$> rows).
Proof.
  rewrite <- list_fmap_compose. apply list_fmap_ext. intros i r _. reflexivity.
Qed.

Lemma unpivot_retime (t1 t2 : datetime) (d : date) (code : str)
  (vals : gmap str (option Decimal)) :
  unpivot t2 d code vals = retime t2 <$> unpivot t1 d code vals.
Proof.
  unfold unpivot. induction METRIC_COLUMNS as [|c cols IH]; [reflexivity|].
  cbn [flat_map]. rewrite fmap_app, IH.
  destruct (dict_get vals c.2); reflexivity.
Qed.

Lemma derive_mart_rows_retime (t1 t2 : datetime) (rows : list ParsedRow) :
  derive_mart_rows t2 rows
  = match derive_mart_rows t1 rows with
    | Ok recs => Ok (retime t2 <$> recs)
    | Raise e => Raise e
    end.
Proof.
  induction rows as [|r rows IH]; [reflexivity|].
  cbn [derive_mart_rows]. rewrite IH. unfold mart_rows_of.
  destruct (_period_to_date (period_key r)) as [[d|]|e]; simpl.
  - destruct (derive_mart_rows t1 rows) as [recs|e]; simpl; [|reflexivity].
    rewrite fmap_app, (unpivot_retime t1 t2). reflexivity.
  - destruct (derive_mart_rows t1 rows); reflexivity.
  - reflexivity.
Qed.

Local Abbreviation pages_ok rows :=
  (forallb (fun page => bool_decide (NoDup (page.*1)))
     (paginate (length rows) 100 rows)).

Lemma retime_retime {K A : Type} (t1 t2 : datetime)
  (rows : list (K * (A * datetime))) :
  retime t2 <$> (retime t1 <$> rows) = retime t2 <$> rows.
Proof.
  rewrite <- list_fmap_compose. apply list_fmap_ext.
  intros i [k [a ts]] _. reflexivity.
Qed.

(** The transaction in closed form: whether it commits depends on the
    parsed rows alone, and what it writes is the two folds of [upsert]. *)
Lemma ingest_transaction_eq (rows : list ParsedRow) (t : datetime) (db : Store) :
  ingest_transaction rows t db
  = if pages_ok (raw_row 0%Z <$> rows) then
      match derive_mart_rows 0%Z rows with
      | Ok recs =>
          if pages_ok recs then
            Ok {| raw_table :=
                    foldl upsert (raw_table db)
                      (retime t <$> (raw_row 0%Z <$> rows));
                  mart_table :=
                    foldl upsert (mart_table db) (retime t <$> recs) |}
          else Raise CardinalityViolation
      | Raise e => Raise e
      end
    else Raise CardinalityViolation.
Proof.
  unfold ingest_transaction.
  rewrite execute_values_eq, (raw_rows_retime 0%Z t).
  rewrite (pages_checked_by_keys (retime t)) by (intros [k [a ts]]; reflexivity).
  destruct (pages_ok (raw_row 0%Z <$> rows)); [|reflexivity].
  cbn [mbind result_bind].
  rewrite (derive_mart_rows_retime 0%Z t).
  destruct (derive_mart_rows 0%Z rows) as [recs|e]; [|reflexivity].
  cbn [mbind result_bind].
  rewrite execute_values_eq.
  rewrite (pages_checked_by_keys (retime t)) by (intros [k [a ts]]; reflexivity).
  destruct (pages_ok recs); reflexivity.
Qed.

Lemma ingest_rows_nonempty (mode : str) (rows : list ParsedRow)
  (t : datetime) (db : Store) :
  rows <> [] ->
  ingest_rows mode rows t db
  = match ingest_transaction rows t db with
    | Ok db' => (db', summarize mode rows)
    | Raise e => (db, Raise e)
    end.
Proof. destruct rows; [congruence | reflexivity]. Qed.

Lemma ingest_rows_replay (mode : str) (rows : list ParsedRow)
  (t1 t2 : datetime) (db : Store) :
  let first := ingest_rows mode rows t1 db in
  let second := ingest_rows mode rows t2 first.1 in
  untimed second.1 = untimed first.1
  /\ second.2 = first.2
  /\ second = ingest_rows mode rows t2 db.
Proof.
  destruct (decide (rows = [])) as [->|Hne]; [simpl; auto|].
  cbv zeta.
  rewrite !(ingest_rows_nonempty mode rows _ db Hne), !ingest_transaction_eq.
  destruct (pages_ok (raw_row 0%Z <$> rows)) eqn:Hraw.
  2:{ cbn [fst snd].
      rewrite (ingest_rows_nonempty mode rows _ db Hne), ingest_transaction_eq,
        Hraw. auto. }
  destruct (derive_mart_rows 0%Z rows) as [recs|e] eqn:Hrecs.
  2:{ cbn [fst snd].
      rewrite (ingest_rows_nonempty mode rows _ db Hne), ingest_transaction_eq,
        Hraw, Hrecs. auto. }
  destruct (pages_ok recs) eqn:Hmart.
  2:{ cbn [fst snd].
      rewrite (ingest_rows_nonempty mode rows _ db Hne), ingest_transaction_eq,
        Hraw, Hrecs, Hmart. auto. }
  cbn [fst snd].
  rewrite (ingest_rows_nonempty mode rows _ _ Hne), ingest_transaction_eq,
    Hraw, Hrecs, Hmart.
  cbn [fst snd raw_table mart_table]. unfold untimed.
  cbn [raw_table mart_table].
  rewrite <- (retime_retime t1 t2 (raw_row 0%Z <$> rows)).
  rewrite <- (retime_retime t1 t2 recs).
  destruct (upsert_replay (retime t1 <$> (raw_row 0%Z <$> rows)) t2
              (raw_table db)) as [Hr1 Hr2].
  destruct (upsert_replay (retime t1 <$> recs) t2 (mart_table db))
    as [Hm1 Hm2].
  rewrite Hr1, Hm1, Hr2, Hm2. auto.
Qed.

(** C4: ingestion is idempotent.  For every source text, a second run
    over the store left by a first run leaves both tables with the keys
    and values of the first run (the tables compared without their
    [ingested_at] column), reports what the first run reported, and ends
    in the store that a single run at the later time produces: each bulk
    upsert inserts or overwrites by its uniqueness key. *)
Theorem ingest_idempotent (csv_rows : str -> list (list str))
  (mode source_text : str) (t1 t2 : datetime) (db : Store) :
  let first := ingest csv_rows mode source_text t1 db in
  let second := ingest csv_rows mode source_text t2 first.1 in
  untimed second.1 = untimed first.1
  /\ second.2 = first.2
  /\ second = ingest csv_rows mode source_text t2 db.
Proof.
  unfold ingest.
  destruct (_parse_csv_rows csv_rows source_text) as [rows|e]; [|simpl; auto].
  apply ingest_rows_replay.
Qed.

End IngestFacts.

(** A run over one row of December 2023 fills both tables of an empty
    store, and a run over the same row twice in one page is refused by
    the store and leaves it as it was. *)
Lemma ingest_sample_runs :
  (exists db,
     @ingest_rows basic_latin (lit "mock") [sample_row "202312"] 7%Z sample_store
     = (db, Ok {| rows_loaded := 1;
                  distinct_nace := 1;
                  min_date := Some (Date 2023 12 1);
                  max_date := Some (Date 2023 12 1);
                  source_mode := lit "mock" |})
     /\ size (raw_table db) = 1%nat
     /\ size (mart_table db) = 3%nat
     /\ mart_table db !! (Date 2023 12 1, lit "47", lit "uidxnom")
        = Some (DFinite false 1015 (-1), 7%Z))
  /\ @ingest_rows basic_latin (lit "mock")
       [sample_row "202312"; sample_row "202312"] 7%Z sample_store
     = (sample_store, Raise CardinalityViolation).
Proof.
  split; [eexists|]; vm_compute; repeat split; reflexivity.
Qed.


(** ** Unpivoting *)

Lemma replace_from_skip (old new pre s : str) :
  replace_from old new (length pre) (pre ++ s) = replace_from old new O s.
Proof. induction pre as [|c pre IH]; [reflexivity | exact IH]. Qed.

Lemma replace_no_occurrence (old new s : str) :
  old <> [] -> no_occurrence old s -> replace old new s = s.
Proof.
  intros Hold. unfold replace. induction s as [|c s IH]; intros Hno;
    [reflexivity|].
  cbn [replace_from].
  destruct (startswith (c :: s) old) eqn:E.
  - apply startswith_prefix in E as [post Hpost].
    exfalso. apply (Hno [] post). exact Hpost.
  - f_equal. apply IH. intros pre post ->.
    apply (Hno (c :: pre) post). reflexivity.
Qed.

Lemma replace_leading (old new s : str) :
  old <> [] -> no_occurrence old s -> replace old new (old ++ s) = new ++ s.
Proof.
  intros Hold Hno. unfold replace.
  destruct old as [|x old']; [congruence|].
  cbn [app replace_from].
  assert (startswith (x :: old' ++ s) (x :: old') = true) as ->.
  { apply startswith_prefix. exists s. reflexivity. }
  cbn [length pred]. rewrite replace_from_skip.
  f_equal. apply (replace_no_occurrence (x :: old') new s); [discriminate|].
  exact Hno.
Qed.

Section Unpivot.
Context {U : Unicode}.

Lemma unpivot_length (t : datetime) (d : date) (code : str)
  (vals : gmap str (option Decimal)) :
  length (unpivot t d code vals) = present_metrics vals.
Proof.
  unfold unpivot, present_metrics.
  induction METRIC_COLUMNS as [|c cols IH]; [reflexivity|].
  cbn [flat_map List.filter]. rewrite length_app, IH.
  destruct (dict_get vals c.2); reflexivity.
Qed.

Lemma unpivot_In (t : datetime) (d : date) (code : str)
  (vals : gmap str (option Decimal))
  (rec : (date * str * str) * (Decimal * datetime)) :
  In rec (unpivot t d code vals)
  <-> exists c v,
        In c METRIC_COLUMNS /\ dict_get vals c.2 = Some v
        /\ rec = ((d, code, c.1), (v, t)).
Proof.
  unfold unpivot. rewrite in_flat_map. split.
  - intros (c & Hc & Hrec). destruct (dict_get vals c.2) as [v|] eqn:E;
      [|destruct Hrec].
    destruct Hrec as [<-|[]]. exists c, v. auto.
  - intros (c & v & Hc & Hv & ->). exists c. rewrite Hv. simpl. auto.
Qed.

Lemma unpivot_keys_NoDup (t : datetime) (d : date) (code : str)
  (vals : gmap str (option Decimal)) :
  NoDup ((unpivot t d code vals).*1).
Proof.
  unfold unpivot.
  assert (NoDup (METRIC_COLUMNS.*1)) as Hnd
    by (apply (bool_decide_unpack _); vm_compute; exact I).
  induction METRIC_COLUMNS as [|c cols IH]; [constructor|].
  rewrite fmap_cons in Hnd. apply NoDup_cons in Hnd as [Hc Hnd].
  cbn [flat_map]. destruct (dict_get vals c.2) as [v|]; [|exact (IH Hnd)].
  cbn [app fmap list_fmap fst]. apply NoDup_cons. split; [|exact (IH Hnd)].
  intros Hin. apply Hc.
  apply list_elem_of_fmap in Hin as (rec & Hk & Hrec).
  apply list_elem_of_In, in_flat_map in Hrec as (c' & Hc' & Hrec).
  destruct (dict_get vals c'.2); [|destruct Hrec].
  destruct Hrec as [<-|[]]. simpl in Hk. injection Hk as ->.
  apply list_elem_of_fmap. exists c'. split; [reflexivity|].
  apply list_elem_of_In. exact Hc'.
Qed.

Lemma derive_mart_rows_concat (t : datetime) (rows : list ParsedRow)
  (recs : list ((date * str * str) * (Decimal * datetime))) :
  derive_mart_rows t rows = Ok recs ->
  exists per_row,
    Forall2 (fun row l => mart_rows_of t row = Ok l) rows per_row
    /\ recs = concat per_row.
Proof.
  revert recs. induction rows as [|r rows IH]; intros recs.
  - intros [= <-]. exists []. split; [constructor | reflexivity].
  - cbn [derive_mart_rows].
    destruct (mart_rows_of t r) as [here|e] eqn:Hr; [|intros ?; discriminate].
    cbn [mbind result_bind].
    destruct (derive_mart_rows t rows) as [later|e] eqn:Hl;
      [|intros ?; discriminate].
    cbn [mbind result_bind]. intros [= <-].
    destruct (IH later eq_refl) as (per_row & HF & ->).
    exists (here :: per_row). split; [constructor; assumption | reflexivity].
Qed.

Lemma derive_mart_rows_returns (t : datetime) (rows : list ParsedRow) :
  Forall (fun row => exists r, _period_to_date (period_key row) = Ok r) rows ->
  exists recs, derive_mart_rows t rows = Ok recs.
Proof.
  induction 1 as [|r rows [d Hd] _ [later IH]]; [exists []; reflexivity|].
  cbn [derive_mart_rows]. unfold mart_rows_of. rewrite Hd, IH.
  destruct d; simpl; eauto.
Qed.

(** C7, as amended: unpivot completeness.  For a parsed row whose period
    key resolves to a date, the mart derivation emits exactly one record
    per metric of [METRIC_COLUMNS] whose value is present, no two for the
    same metric; each carries the row's date, the category key with every
    occurrence of [NACEIDX-] removed (for a key made of that prefix and a
    code free of it, the code), the metric name, the metric's value and
    the run's timestamp.  The records of a run are the concatenation, in row
    order, of the records of its rows, so each stems from one row and one
    metric, and the derivation completes when every period key
    normalises.  A row with three of the five metrics yields three
    records. *)
Theorem unpivot_complete :
  (forall ingested_at row d,
     _period_to_date (period_key row) = Ok (Some d) ->
     exists recs,
       mart_rows_of ingested_at row = Ok recs
       /\ length recs = present_metrics (values row)
       /\ NoDup (recs.*1)
       /\ forall rec,
            In rec recs
            <-> exists c v,
                  In c METRIC_COLUMNS
                  /\ dict_get (values row) c.2 = Some v
                  /\ rec = ((d, replace (lit "NACEIDX-") (lit "") (nace_key row),
                             c.1),
                            (v, ingested_at)))
  /\ (forall code,
        no_occurrence (lit "NACEIDX-") code ->
        replace (lit "NACEIDX-") (lit "") (lit "NACEIDX-" ++ code) = code)
  /\ (forall ingested_at rows recs,
        derive_mart_rows ingested_at rows = Ok recs ->
        exists per_row,
          Forall2 (fun row l => mart_rows_of ingested_at row = Ok l)
            rows per_row
          /\ recs = concat per_row)
  /\ (forall ingested_at rows,
        Forall (fun row => exists r, _period_to_date (period_key row) = Ok r)
          rows ->
        exists recs, derive_mart_rows ingested_at rows = Ok recs)
  /\ present_metrics sample_values_3_of_5 = 3%nat
  /\ mart_rows_of 7%Z (sample_row "202301")
     = Ok [ ((Date 2023 1 1, lit "47", lit "uidxnom"),
             (DFinite false 1015 (-1), 7%Z));
            ((Date 2023 1 1, lit "47", lit "beschidx"),
             (DFinite false 100 0, 7%Z));
            ((Date 2023 1 1, lit "47", lit "uidxrsb"),
             (DNaN false false 0, 7%Z)) ].
Proof.
  split; [|split; [|split; [|split; [|split]]]].
  - intros t row d Hd. unfold mart_rows_of. rewrite Hd. simpl.
    eexists. split; [reflexivity|].
    split; [apply unpivot_length|].
    split; [apply unpivot_keys_NoDup|].
    intros rec. apply unpivot_In.
  - intros code Hno.
    apply (replace_leading (lit "NACEIDX-") (lit "") code);
      [discriminate | exact Hno].
  - exact derive_mart_rows_concat.
  - exact derive_mart_rows_returns.
  - vm_compute. reflexivity.
  - vm_compute. reflexivity.
Qed.

(** C10: the decimal parser keeps the special values that [Decimal]
    accepts: [nan] and [NaN] give a NaN, [inf] and [Infinity] an
    infinity, none of them absent.  Such a value is a present metric: for
    a row whose period key resolves, every metric with a value, special or
    not, has its record among the mart rows; the row read from the cells
    nan and Infinity yields records with those values, and after the run
    the mart table holds the NaN under the row's date, category code and
    metric. *)
Theorem parse_decimal_keeps_special_values :
  _parse_decimal (Some (lit "nan")) = Ok (Some (DNaN false false 0))
  /\ _parse_decimal (Some (lit "NaN")) = Ok (Some (DNaN false false 0))
  /\ _parse_decimal (Some (lit "inf")) = Ok (Some (DInfinity false))
  /\ _parse_decimal (Some (lit "Infinity")) = Ok (Some (DInfinity false))
  /\ (forall ingested_at row d c v,
        _period_to_date (period_key row) = Ok (Some d) ->
        In c METRIC_COLUMNS ->
        dict_get (values row) c.2 = Some v ->
        exists recs,
          mart_rows_of ingested_at row = Ok recs
          /\ In ((d, replace (lit "NACEIDX-") (lit "") (nace_key row), c.1),
                 (v, ingested_at)) recs)
  /\ parse_rows_raw
       [ sample_header;
         [ lit "202301"; lit "NACEIDX-47"; lit "nan"; lit "Infinity";
           lit "100"; lit "1" ] ]
     = Ok [special_values_row]
  /\ derive_mart_rows 7%Z [special_values_row]
     = Ok [ ((Date 2023 1 1, lit "47", lit "uidxnom"),
             (DNaN false false 0, 7%Z));
            ((Date 2023 1 1, lit "47", lit "uidxreal"),
             (DInfinity false, 7%Z));
            ((Date 2023 1 1, lit "47", lit "beschidx"),
             (DFinite false 100 0, 7%Z)) ]
  /\ (forall mode ingested_at db,
        mart_table (ingest_rows mode [special_values_row] ingested_at db).1
          !! (Date 2023 1 1, lit "47", lit "uidxnom")
        = Some (DNaN false false 0, ingested_at)).
Proof.
  repeat (split; [reflexivity|]).
  split; [|split; [|split]].
  - intros t row d c v Hd Hc Hv. unfold mart_rows_of. rewrite Hd. simpl.
    eexists. split; [reflexivity|]. apply unpivot_In. eauto.
  - vm_compute. reflexivity.
  - vm_compute. reflexivity.
  - intros mode t db.
    rewrite ingest_rows_nonempty by discriminate.
    rewrite ingest_transaction_eq.
    assert (derive_mart_rows 0%Z [special_values_row]
            = Ok [ ((Date 2023 1 1, lit "47", lit "uidxnom"),
                    (DNaN false false 0, 0%Z));
                   ((Date 2023 1 1, lit "47", lit "uidxreal"),
                    (DInfinity false, 0%Z));
                   ((Date 2023 1 1, lit "47", lit "beschidx"),
                    (DFinite false 100 0, 0%Z)) ]) as ->
      by (vm_compute; reflexivity).
    assert (forallb (fun page => bool_decide (NoDup (page.*1)))
              (paginate (length (raw_row 0%Z <$> [special_values_row])) 100
                 (raw_row 0%Z <$> [special_values_row])) = true) as ->
      by (vm_compute; reflexivity).
    match goal with
    | |- context [if ?b then _ else _] =>
        assert (b = true) as -> by (vm_compute; reflexivity)
    end.
    cbn [fst snd mart_table fmap list_fmap foldl retime].
    unfold upsert. cbn [fst snd].
    rewrite lookup_insert_ne by (vm_compute; discriminate).
    rewrite lookup_insert_ne by (vm_compute; discriminate).
    apply lookup_insert_eq.
Qed.

End Unpivot.

(** C7, as stated, fails: the category code is the key with every
    occurrence of [NACEIDX-] removed, not the key with that prefix
    stripped; the key [NACEIDX-47-NACEIDX-48] gives the code [47-48], where
    stripping the prefix leaves [47-NACEIDX-48]. *)
Lemma unpivot_removes_every_sentinel :
  let row := {| period_key := lit "202301";
                nace_key := lit "NACEIDX-47-NACEIDX-48";
                values := sample_values_3_of_5 |} in
  strip_prefix (lit "NACEIDX-") (nace_key row) = lit "47-NACEIDX-48"
  /\ match @mart_rows_of basic_latin 7%Z row with
     | Ok recs => map (fun rec : (date * str * str) * (Decimal * datetime) =>
                         rec.1.1.2) recs
     | Raise _ => []
     end = [lit "47-48"; lit "47-48"; lit "47-48"].
Proof. split; vm_compute; reflexivity. Qed.

Lemma unpivot_complete_witness :
  exists recs,
    @mart_rows_of basic_latin 7%Z (sample_row "TIIDX-202301") = Ok recs
    /\ length recs = 3%nat
    /\ replace (lit "NACEIDX-") (lit "") (lit "NACEIDX-" ++ lit "47") = lit "47".
Proof.
  destruct (@unpivot_complete basic_latin) as (Hrow & Hcode & _).
  destruct (Hrow 7%Z (sample_row "TIIDX-202301") (Date 2023 1 1) eq_refl)
    as (recs & Hrecs & Hlen & _).
  exists recs. split; [exact Hrecs|]. split; [exact Hlen|].
  apply Hcode. intros pre post E.
  apply (f_equal (@length N)) in E. rewrite !length_app in E.
  simpl in E. lia.
Defined.

Lemma parse_decimal_keeps_special_values_witness :
  exists recs,
    @mart_rows_of basic_latin 7%Z special_values_row = Ok recs
    /\ In ((Date 2023 1 1, lit "47", lit "uidxnom"),
           (DNaN false false 0, 7%Z)) recs.
Proof.
  destruct (@parse_decimal_keeps_special_values basic_latin)
    as (_ & _ & _ & _ & Hflow & _).
  exact (Hflow 7%Z special_values_row (Date 2023 1 1)
           (lit "uidxnom", lit "uidxnom") (DNaN false false 0)
           eq_refl (or_introl eq_refl) eq_refl).
Defined.


(** ** The read endpoints *)

Lemma date_leb_refl (a : date) : date_leb a a = true.
Proof.
  unfold date_leb. rewrite !N.eqb_refl, N.leb_refl, !orb_true_r. reflexivity.
Qed.

Lemma date_leb_trans (a b c : date) :
  date_leb a b = true -> date_leb b c = true -> date_leb a c = true.
Proof.
  destruct a as [ya ma da], b as [yb mb db], c as [yc mc dc].
  unfold date_leb. cbn [year month day].
  rewrite !orb_true_iff, !andb_true_iff, !orb_true_iff, !andb_true_iff,
    !N.ltb_lt, !N.eqb_eq, !N.leb_le.
  lia.
Qed.

#[local] Instance date_desc_trans {A : Type} (f : A -> date) :
  Transitive (date_desc f).
Proof. intros a b c Hab Hbc. exact (date_leb_trans _ _ _ Hbc Hab). Qed.

Lemma sorted_head_latest {A : Type} (f : A -> date) (x : A) (l : list A) :
  Sorted (date_desc f) (x :: l) ->
  forall r, In r (x :: l) -> date_leb (f r) (f x) = true.
Proof.
  intros Hs r Hr. apply Sorted_StronglySorted in Hs; [|apply _].
  apply StronglySorted_inv in Hs as [_ Hall].
  destruct Hr as [<-|Hr]; [apply date_leb_refl|].
  rewrite List.Forall_forall in Hall. exact (Hall r Hr).
Qed.

Lemma allowed_metric_valid (metric : str) :
  In metric ALLOWED_METRICS -> _validate_metric metric = Ok metric.
Proof.
  intros H. unfold _validate_metric.
  assert (existsb (str_eqb metric) ALLOWED_METRICS = true) as ->; [|reflexivity].
  apply existsb_exists. exists metric. split; [exact H | apply str_eqb_refl].
Qed.


Lemma nominal_real_matching_In
  (mart : gmap (date * str * str) (Decimal * datetime)) (nace : str)
  (d : date) (m : str) (v : Decimal) :
  In (d, m, v) (nominal_real_matching mart nace)
  <-> (m = lit "uidxnom" \/ m = lit "uidxreal")
      /\ exists ts, mart !! (d, nace, m) = Some (v, ts).
Proof.
  unfold nominal_real_matching.
  rewrite <- list_elem_of_In, list_elem_of_omap. split.
  - intros ([[[d' n'] m'] [v' ts]] & Hin & Hf).
    apply elem_of_map_to_list in Hin. cbn [fst snd] in Hf.
    destruct (str_eqb n' nace) eqn:En; [|discriminate Hf].
    apply str_eqb_eq in En. subst n'.
    destruct (str_eqb m' (lit "uidxnom") || str_eqb m' (lit "uidxreal")) eqn:Em;
      [|discriminate Hf].
    cbn [andb] in Hf. injection Hf as -> -> ->.
    apply orb_true_iff in Em. rewrite !str_eqb_eq in Em. eauto.
  - intros (Hm & ts & Hl).
    exists ((d, nace, m), (v, ts)). split; [apply elem_of_map_to_list, Hl|].
    cbn [fst snd]. rewrite str_eqb_refl.
    assert (str_eqb m (lit "uidxnom") || str_eqb m (lit "uidxreal") = true) as ->.
    { apply orb_true_iff. rewrite !str_eqb_eq. exact Hm. }
    reflexivity.
Qed.

Section EndpointFacts.
Variable to_float : Decimal -> float.

Lemma metric_map_foldl (rows : list (date * str * Decimal))
  (m0 : gmap str float) (m : str) (x : float) :
  foldl (fun acc (row : date * str * Decimal) =>
           <[row.1.2 := to_float row.2]> acc) m0 rows !! m = Some x ->
  (exists row, In row rows /\ row.1.2 = m /\ x = to_float row.2)
  \/ m0 !! m = Some x.
Proof.
  revert m0. induction rows as [|r rows IH]; intros m0 H; [right; exact H|].
  cbn [foldl] in H. destruct (IH _ H) as [(row & Hin & Hk & Hx)|H0].
  - left. exists row. split; [right; exact Hin | auto].
  - destruct (decide (r.1.2 = m)) as [E|E].
    + rewrite E, lookup_insert_eq in H0. injection H0 as <-.
      left. exists r. split; [left; reflexivity | auto].
    + rewrite lookup_insert_ne in H0 by exact E. right. exact H0.
Qed.

Lemma metric_map_foldl_some (rows : list (date * str * Decimal))
  (m0 : gmap str float) (row : date * str * Decimal) :
  In row rows ->
  is_Some (foldl (fun acc (row : date * str * Decimal) =>
                    <[row.1.2 := to_float row.2]> acc) m0 rows !! row.1.2).
Proof.
  revert m0. induction rows as [|r rows IH]; intros m0 Hin; [destruct Hin|].
  cbn [foldl]. destruct Hin as [->|Hin]; [|apply IH; exact Hin].
  destruct (foldl _ _ rows !! row.1.2) as [x|] eqn:E; [eauto|].
  exfalso. clear IH.
  assert (forall (l : list (date * str * Decimal)) (acc : gmap str float) k,
            is_Some (acc !! k) ->
            is_Some (foldl (fun acc (row : date * str * Decimal) =>
                              <[row.1.2 := to_float row.2]> acc) acc l !! k))
    as Hkeep.
  { induction l as [|y l IHl]; intros acc k Hk; [exact Hk|].
    cbn [foldl]. apply IHl.
    destruct (decide (y.1.2 = k)) as [<-|Hne].
    - rewrite lookup_insert_eq. eauto.
    - rewrite lookup_insert_ne by exact Hne. exact Hk. }
  destruct (Hkeep rows (<[row.1.2 := to_float row.2]> m0) row.1.2) as [x Hx].
  - rewrite lookup_insert_eq. eauto.
  - congruence.
Qed.

(** The metric map of the latest rows holds, for either metric, the
    value stored under the latest date. *)
Lemma metric_map_lookup
  (mart : gmap (date * str * str) (Decimal * datetime)) (nace : str)
  (rows : list (date * str * Decimal)) (d : date) (m : str) :
  rows ≡ₚ nominal_real_matching mart nace ->
  m = lit "uidxnom" \/ m = lit "uidxreal" ->
  metric_map_of to_float
    (List.filter (fun row : date * str * Decimal => bool_decide (row.1.1 = d))
       rows) !! m
  = (fun x : Decimal * datetime => to_float x.1) <$> mart !! (d, nace, m).
Proof.
  intros Hperm Hm.
  assert (forall row,
            In row (List.filter
                      (fun row : date * str * Decimal =>
                         bool_decide (row.1.1 = d)) rows)
            <-> row.1.1 = d
                /\ (row.1.2 = lit "uidxnom" \/ row.1.2 = lit "uidxreal")
                /\ exists ts, mart !! (row.1.1, nace, row.1.2) = Some (row.2, ts))
    as Hrows.
  { intros [[d' m'] v']. rewrite filter_In, bool_decide_eq_true.
    rewrite <- (nominal_real_matching_In mart nace d' m' v').
    rewrite <- !list_elem_of_In, Hperm. cbn [fst snd]. tauto. }
  unfold metric_map_of.
  destruct (mart !! (d, nace, m)) as [[v ts]|] eqn:El; cbn [fmap option_fmap option_map].
  - assert (In (d, m, v)
              (List.filter (fun row : date * str * Decimal =>
                              bool_decide (row.1.1 = d)) rows)) as Hin.
    { apply Hrows. cbn [fst snd]. eauto. }
    destruct (metric_map_foldl_some _ ∅ _ Hin) as [x Hx].
    cbn [fst snd] in Hx. rewrite Hx.
    apply metric_map_foldl in Hx as [(row & Hr & Hk & ->)|Hx];
      [|rewrite lookup_empty in Hx; discriminate].
    apply Hrows in Hr as (Hd & _ & ts' & Hl).
    rewrite Hd, Hk, El in Hl. injection Hl as <- _. reflexivity.
  - destruct (foldl _ ∅ _ !! m) as [x|] eqn:Ex; [|reflexivity].
    apply metric_map_foldl in Ex as [(row & Hr & Hk & _)|Hx];
      [|rewrite lookup_empty in Hx; discriminate].
    apply Hrows in Hr as (Hd & _ & ts' & Hl).
    rewrite Hd, Hk, El in Hl. discriminate.
Qed.

(** C3, as amended: the endpoint compares [uidxnom] and [uidxreal] at the
    most recent date at which either of them is stored for the category
    (404 when neither is stored at all).  Each side is the value stored
    at that date, absent when there is none; the gap is [uidxnom] minus
    [uidxreal] when both are stored at that date and unresolved
    otherwise, in particular when only one of the two metrics exists for
    the category. *)
Theorem nominal_vs_real_latest_date
  (mart : gmap (date * str * str) (Decimal * datetime)) (nace : str)
  (rows : list (date * str * Decimal)) :
  select_nominal_real mart nace rows ->
  (nominal_real_matching mart nace = [] ->
   nominal_vs_real to_float rows nace = Raise (HTTPException 404))
  /\ (nominal_real_matching mart nace <> [] ->
      exists d resp,
        nominal_vs_real to_float rows nace = Ok resp
        /\ nvr_period_date resp = d
        /\ (exists m v, In (d, m, v) (nominal_real_matching mart nace))
        /\ (forall r, In r (nominal_real_matching mart nace) ->
              date_leb r.1.1 d = true)
        /\ nvr_uidxnom resp
           = (fun x : Decimal * datetime => to_float x.1)
               <$> mart !! (d, nace, lit "uidxnom")
        /\ nvr_uidxreal resp
           = (fun x : Decimal * datetime => to_float x.1)
               <$> mart !! (d, nace, lit "uidxreal")
        /\ nvr_gap resp
           = match nvr_uidxnom resp, nvr_uidxreal resp with
             | Some a, Some b => Some (a - b)%float
             | _, _ => None
             end
        /\ ((forall d', mart !! (d', nace, lit "uidxnom") = None)
            \/ (forall d', mart !! (d', nace, lit "uidxreal") = None) ->
            nvr_gap resp = None)).
Proof.
  intros [Hperm Hsorted]. split.
  - intros E. rewrite E in Hperm. apply Permutation_nil_r in Hperm.
    subst rows. reflexivity.
  - intros Hne. destruct rows as [|first rest].
    { exfalso. apply Hne. symmetry in Hperm.
      apply Permutation_nil_r in Hperm. exact Hperm. }
    exists first.1.1. eexists. split; [reflexivity|].
    cbn [nvr_period_date nvr_uidxnom nvr_uidxreal nvr_gap].
    pose proof (metric_map_lookup mart nace (first :: rest) first.1.1
                  (lit "uidxnom") Hperm (or_introl eq_refl)) as Hnom.
    pose proof (metric_map_lookup mart nace (first :: rest) first.1.1
                  (lit "uidxreal") Hperm (or_intror eq_refl)) as Hreal.
    split; [reflexivity|]. split; [|split; [|split; [|split; [|split]]]].
    + destruct first as [[d m] v]. exists m, v. cbn [fst snd].
      rewrite <- list_elem_of_In, <- Hperm. left.
    + intros r Hr. apply (sorted_head_latest (fun r => r.1.1) first rest Hsorted).
      rewrite <- list_elem_of_In, Hperm, list_elem_of_In. exact Hr.
    + exact Hnom.
    + exact Hreal.
    + reflexivity.
    + rewrite Hnom, Hreal. intros [Hn|Hr].
      * rewrite Hn. reflexivity.
      * rewrite Hr. destruct (mart !! _); reflexivity.
Qed.


End EndpointFacts.

Lemma sample_rows_selected :
  select_nominal_real sample_mart (lit "47") sample_nominal_real_rows.
Proof.
  split.
  - apply (bool_decide_unpack _). vm_compute. exact I.
  - repeat constructor.
Qed.

Lemma nominal_vs_real_latest_date_witness :
  exists d resp,
    nominal_vs_real float_of_integral sample_nominal_real_rows (lit "47")
    = Ok resp
    /\ nvr_period_date resp = d
    /\ nvr_gap resp = None.
Proof.
  destruct (nominal_vs_real_latest_date float_of_integral sample_mart
              (lit "47") sample_nominal_real_rows sample_rows_selected)
    as [_ H].
  destruct H as (d & resp & Hr & Hd & _ & _ & _ & _ & Hgap & _).
  { vm_compute. discriminate. }
  exists d, resp. split; [exact Hr|]. split; [exact Hd|].
  rewrite Hgap. injection Hr as <-. reflexivity.
Defined.

(** C3, as stated, fails: in [sample_mart] the category has both metrics
    in January 2023 and the nominal one alone in February, so the most
    recent shared date is January 1; the endpoint answers for February 1,
    with no real index and no gap. *)
Lemma nominal_vs_real_not_shared_date :
  select_nominal_real sample_mart (lit "47") sample_nominal_real_rows
  /\ most_recent_shared_date sample_mart (lit "47") = Some (Date 2023 1 1)
  /\ nominal_vs_real float_of_integral sample_nominal_real_rows (lit "47")
     = Ok {| nvr_nace := lit "47";
             nvr_period_date := Date 2023 2 1;
             nvr_uidxnom := Some 105%float;
             nvr_uidxreal := None;
             nvr_gap := None;
             nvr_caveat :=
               lit "Nominal vs. real gap is indicative; interpret with context." |}.
Proof.
  split; [exact sample_rows_selected|].
  split; vm_compute; reflexivity.
Qed.




(** * Further properties *)

(** ** Whitespace around a cell *)

Lemma lstrip_by_app_all (p : N -> bool) (pre s : str) :
  Forall (fun c => p c = true) pre -> lstrip_by p (pre ++ s) = lstrip_by p s.
Proof.
  induction 1 as [|c pre Hc _ IH]; [reflexivity|]. simpl. rewrite Hc. exact IH.
Qed.

Lemma lstrip_by_app_keep (p : N -> bool) (s post : str) :
  lstrip_by p s <> [] -> lstrip_by p (s ++ post) = lstrip_by p s ++ post.
Proof.
  induction s as [|c s IH]; simpl; [congruence|].
  destruct (p c); [exact IH | reflexivity].
Qed.

Lemma rstrip_by_app_all (p : N -> bool) (s post : str) :
  Forall (fun c => p c = true) post -> rstrip_by p (s ++ post) = rstrip_by p s.
Proof.
  intros H. unfold rstrip_by. rewrite rev_app_distr, lstrip_by_app_all;
    [reflexivity|].
  apply List.Forall_forall. intros c Hc. apply in_rev in Hc.
  rewrite List.Forall_forall in H. auto.
Qed.

Lemma strip_surrounded (pre s post : str) :
  blank pre -> blank post -> strip (pre ++ s ++ post) = strip s.
Proof.
  intros Hpre Hpost. unfold strip. rewrite (lstrip_by_app_all _ _ _ Hpre).
  destruct (lstrip_by isspace s) as [|c r] eqn:E.
  - assert (Forall (fun c => isspace c = true) s) as Hs.
    { clear -E. induction s as [|x s IH]; [constructor|].
      simpl in E. destruct (isspace x) eqn:Hx; [|discriminate].
      constructor; auto. }
    rewrite lstrip_by_all; [reflexivity|].
    apply Forall_app. split; assumption.
  - rewrite lstrip_by_app_keep by congruence. rewrite E.
    apply rstrip_by_app_all. exact Hpost.
Qed.

Section CellWhitespace.
Context {U : Unicode}.

(** Whitespace before and after a cell changes neither its decimal value
    nor the date of its period key. *)
Theorem surrounding_whitespace_ignored (pre post s : str) :
  blank pre -> blank post ->
  _parse_decimal (Some (pre ++ s ++ post)) = _parse_decimal (Some s)
  /\ _period_to_date (pre ++ s ++ post) = _period_to_date s
  /\ _normalize_header (pre ++ s ++ post) = _normalize_header s.
Proof.
  intros Hpre Hpost.
  unfold _parse_decimal, _period_to_date, _normalize_header.
  rewrite (strip_surrounded pre s post Hpre Hpost). auto.
Qed.

(** ** Dates of period keys *)

Lemma month_group_range (s r : str) (m : N) :
  month_group s = Some (m, r) -> 1 <= m <= 12.
Proof.
  unfold month_group. destruct s as [|c [|c2 r2]]; [discriminate| |].
  - destruct ((49 <=? c) && (c <=? 57)) eqn:E; [|discriminate].
    intros [= <- _]. apply andb_true_iff in E as [H1 H2].
    apply N.leb_le in H1, H2. lia.
  - destruct ((c =? 49) && (48 <=? c2) && (c2 <=? 50)) eqn:E1.
    { intros [= <- _]. apply andb_true_iff in E1 as [E1 H3].
      apply andb_true_iff in E1 as [_ H2]. apply N.leb_le in H2, H3. lia. }
    destruct ((c =? 48) && (49 <=? c2) && (c2 <=? 57)) eqn:E2.
    { intros [= <- _]. apply andb_true_iff in E2 as [E2 H3].
      apply andb_true_iff in E2 as [_ H2]. apply N.leb_le in H2, H3. lia. }
    destruct ((49 <=? c) && (c <=? 57)) eqn:E3; [|discriminate].
    intros [= <- _]. apply andb_true_iff in E3 as [H1 H2].
    apply N.leb_le in H1, H2. lia.
Qed.

Lemma first_of_month_ok (y m : N) (d : date) :
  first_of_month y m = Ok d -> d = Date y m 1 /\ 1 <= y <= 9999.
Proof.
  unfold first_of_month. destruct ((1 <=? y) && (y <=? 9999)) eqn:E;
    [|discriminate].
  intros [= <-]. apply andb_true_iff in E as [H1 H2].
  apply N.leb_le in H1, H2. auto.
Qed.

(** Every date that the normaliser returns is the first day of a month,
    with the month in 1..12 and the year in 1..9999. *)
Theorem period_date_is_month_start (key : str) (d : date) :
  _period_to_date key = Ok (Some d) ->
  day d = 1 /\ 1 <= month d <= 12 /\ 1 <= year d <= 9999.
Proof.
  unfold _period_to_date.
  destruct (fullmatch_digits 6 _).
  - unfold strptime_Ym. destruct (fullmatch_digits 4 _); [|discriminate].
    destruct (month_group _) as [[m [|c r]]|] eqn:Hm; try discriminate.
    destruct (int _) as [y|e]; [|discriminate]. cbn [mbind result_bind].
    destruct (first_of_month y m) as [d'|e] eqn:Hf; [|discriminate].
    cbn [mbind result_bind]. intros [= <-].
    apply first_of_month_ok in Hf as [-> Hy].
    apply month_group_range in Hm. cbn [year month day]. auto.
  - destruct (fullmatch_digits 4 _); [|discriminate].
    unfold strptime_Y. destruct (fullmatch_digits 4 _); [|discriminate].
    destruct (drop 4 _); [|discriminate].
    destruct (int _) as [y|e]; [|discriminate]. cbn [mbind result_bind].
    destruct (first_of_month y 1) as [d'|e] eqn:Hf; [|discriminate].
    cbn [mbind result_bind]. intros [= <-].
    apply first_of_month_ok in Hf as [-> Hy].
    cbn [year month day]. split; [reflexivity|]. split; [lia | exact Hy].
Qed.

(** A key written year-month-day, with a four-digit year in 1..9999, a
    month 01..12 and any two characters for the day, maps to the first
    day of that month: the day part is dropped unread. *)
Theorem period_of_iso_date (key Y DD : str) (y m : N) :
  year_digits Y y -> 1 <= m <= 12 ->
  length DD = 2%nat -> contains_char 45 DD = false ->
  strip key = Y ++ 45 :: format_02d m ++ 45 :: DD ->
  _period_to_date key = Ok (Some (Date y m 1)).
Proof.
  intros HY Hm Hl Hd Hk.
  apply (period_of_year_month key Y y m HY Hm).
  destruct (month_digits m Hm) as [HM _].
  pose proof HY as (HfY & _).
  rewrite Hk. unfold dash_clean.
  rewrite contains_char_app, split_app.
  rewrite (split_no_sep _ _ (fullmatch_digits_no_dash _ _ HfY)).
  rewrite split_app, (split_no_sep _ _ (fullmatch_digits_no_dash _ _ HM)),
    (split_no_sep _ _ Hd).
  cbn [app List.last nth]. rewrite Hl.
  rewrite (fullmatch_digits_length _ _ HfY). reflexivity.
Qed.

End CellWhitespace.

Lemma surrounding_whitespace_ignored_witness :
  @_parse_decimal basic_latin (Some (lit " " ++ lit "1,5" ++ [9; 160]))
  = Ok (Some (DFinite false 15 (-1)))
  /\ @_period_to_date basic_latin (lit "  " ++ lit "2023-01" ++ [10])
     = Ok (Some (Date 2023 1 1)).
Proof.
  destruct (@surrounding_whitespace_ignored basic_latin
              (lit " ") [9; 160] (lit "1,5")) as (H1 & _);
    [repeat constructor .. |].
  destruct (@surrounding_whitespace_ignored basic_latin
              (lit "  ") [10] (lit "2023-01")) as (_ & H2 & _);
    [repeat constructor .. |].
  rewrite H1, H2. split; reflexivity.
Defined.

Lemma period_date_is_month_start_witness :
  day (Date 2023 12 1) = 1 /\ 1 <= month (Date 2023 12 1) <= 12
  /\ 1 <= year (Date 2023 12 1) <= 9999.
Proof.
  exact (@period_date_is_month_start basic_latin (lit "TIIDX-202312")
           (Date 2023 12 1) eq_refl).
Defined.

Lemma period_of_iso_date_witness :
  @_period_to_date basic_latin (lit "2023-05-15") = Ok (Some (Date 2023 5 1))
  /\ @_period_to_date basic_latin (lit " 1999-12-?? ")
     = Ok (Some (Date 1999 12 1)).
Proof.
  split.
  - apply (@period_of_iso_date basic_latin (lit "2023-05-15") (lit "2023")
             (lit "15") 2023 5); try reflexivity; try lia.
    repeat split; try reflexivity; lia.
  - apply (@period_of_iso_date basic_latin (lit " 1999-12-?? ") (lit "1999")
             (lit "??") 1999 12); try reflexivity; try lia.
    repeat split; try reflexivity; lia.
Defined.

(** ** Separators in a numeric cell *)

Lemma count_occ_lstrip_by (p : N -> bool) (x : N) (s : str) :
  p x = false -> count_occ N.eq_dec (lstrip_by p s) x = count_occ N.eq_dec s x.
Proof.
  intros Hx. induction s as [|c s IH]; [reflexivity|].
  simpl. destruct (p c) eqn:Hc; [|reflexivity].
  rewrite IH. destruct (N.eq_dec c x) as [->|]; [congruence | reflexivity].
Qed.

Lemma count_occ_strip (x : N) (s : str) :
  isspace x = false -> count_occ N.eq_dec (strip s) x = count_occ N.eq_dec s x.
Proof.
  intros Hx. unfold strip, rstrip_by.
  rewrite count_occ_rev, (count_occ_lstrip_by _ _ _ Hx), count_occ_rev.
  apply count_occ_lstrip_by. exact Hx.
Qed.

(** Replacing a one-character string rewrites each character on its own. *)
Lemma replace_char (c : N) (new s : str) :
  replace [c] new s = flat_map (fun x => if x =? c then new else [x]) s.
Proof.
  unfold replace. induction s as [|x s IH]; [reflexivity|].
  cbn [replace_from flat_map startswith length pred].
  rewrite andb_true_r, N.eqb_sym.
  destruct (x =? c); rewrite IH; reflexivity.
Qed.

Lemma count_occ_remove_char (c x : N) (s : str) :
  x <> c -> count_occ N.eq_dec (replace [c] [] s) x = count_occ N.eq_dec s x.
Proof.
  intros Hx. rewrite replace_char. induction s as [|a s IH]; [reflexivity|].
  cbn [flat_map]. rewrite count_occ_app, IH.
  destruct (N.eqb_spec a c) as [->|Hac]; simpl.
  - destruct (N.eq_dec c x); [congruence | reflexivity].
  - destruct (N.eq_dec a x); reflexivity.
Qed.

Lemma dots_after_commas (s : str) :
  dots (replace [44] [46] s) = (commas s + dots s)%nat.
Proof.
  unfold dots, commas. rewrite replace_char.
  induction s as [|a s IH]; [reflexivity|].
  cbn [flat_map]. rewrite count_occ_app, IH.
  destruct (N.eqb_spec a 44) as [->|Hac]; simpl.
  - reflexivity.
  - destruct (N.eq_dec a 44); [congruence|].
    destruct (N.eq_dec a 46); lia.
Qed.

Lemma span_digits_spec (s d r : str) :
  span_digits s = (d, r) -> s = d ++ r /\ dots d = 0%nat.
Proof.
  revert d r. induction s as [|c s IH]; intros d r; simpl.
  - intros [= <- <-]. auto.
  - destruct (ascii_digit c) eqn:Hc.
    + destruct (span_digits s) as [d' r'] eqn:E. intros [= <- <-].
      destruct (IH d' r' eq_refl) as [-> Hd]. split; [reflexivity|].
      unfold dots in *. simpl. rewrite Hd.
      destruct (N.eq_dec c 46) as [->|]; [discriminate Hc | reflexivity].
    + intros [= <- <-]. auto.
Qed.

(** Case analysis on a code point, down to the six leading bits that
    tell the Basic Latin punctuation apart. *)
Ltac split_code x :=
  let p := fresh "p" in
  destruct x as [|p]; [|do 6 (try (destruct p as [p|p|]))].

Lemma dots_cons (x : N) (s : str) :
  dots (x :: s) = Nat.add (if N.eq_dec x 46 then 1%nat else 0%nat) (dots s).
Proof. unfold dots. simpl. destruct (N.eq_dec x 46); reflexivity. Qed.

Lemma dots_app (a b : str) : dots (a ++ b) = (dots a + dots b)%nat.
Proof. apply count_occ_app. Qed.

(** Taking a leading sign off leaves the decimal points where they are. *)
Lemma sign_split_dots (s body : str) (neg : bool) :
  match s with
  | 43 :: r => (false, r)
  | 45 :: r => (true, r)
  | _ => (false, s)
  end = (neg, body) ->
  dots s = dots body.
Proof.
  destruct s as [|x r]; [intros [= _ <-]; reflexivity|].
  split_code x; cbv beta iota; intros [= _ <-]; reflexivity.
Qed.

Lemma parse_exponent_no_dot (s : str) (e : Z) :
  parse_exponent s = Some e -> dots s = 0%nat.
Proof.
  unfold parse_exponent. destruct s as [|c s1]; [reflexivity|].
  destruct (lower_ascii c =? 101) eqn:Hc; [|discriminate].
  rewrite dots_cons.
  destruct (N.eq_dec c 46) as [->|_]; [discriminate Hc|].
  destruct (match s1 with
            | 43 :: r => (false, r)
            | 45 :: r => (true, r)
            | _ => (false, s1)
            end) as [neg s2] eqn:Hm.
  rewrite (sign_split_dots _ _ _ Hm).
  destruct (span_digits s2) as [ds rest] eqn:E.
  destruct (span_digits_spec _ _ _ E) as [-> Hd].
  destruct ds; [discriminate|]. destruct rest; [|discriminate].
  intros _. rewrite app_nil_r. exact Hd.
Qed.

Lemma parse_number_one_dot (sign : bool) (s : str) (d : Decimal) :
  parse_number sign s = Some d -> (dots s <= 1)%nat.
Proof.
  unfold parse_number.
  destruct (span_digits s) as [intpart s1] eqn:E1.
  destruct (span_digits_spec _ _ _ E1) as [-> Hi].
  rewrite dots_app, Hi.
  assert (forall fracpart s2,
            match intpart ++ fracpart with
            | [] => None
            | ds =>
                match parse_exponent s2 with
                | Some e => Some (DFinite sign (ascii_value ds)
                                    (e - Z.of_nat (length fracpart))%Z)
                | None => None
                end
            end = Some d -> dots s2 = 0%nat) as Hexp.
  { intros fracpart s2. destruct (intpart ++ fracpart); [discriminate|].
    destruct (parse_exponent s2) as [e|] eqn:Ee; [|discriminate].
    intros _. exact (parse_exponent_no_dot _ _ Ee). }
  destruct s1 as [|x r].
  { intros _. unfold dots. simpl. lia. }
  assert (forall fracpart s2,
            span_digits r = (fracpart, s2) ->
            match intpart ++ fracpart with
            | [] => None
            | ds =>
                match parse_exponent s2 with
                | Some e => Some (DFinite sign (ascii_value ds)
                                    (e - Z.of_nat (length fracpart))%Z)
                | None => None
                end
            end = Some d -> (0 + dots (46%N :: r) <= 1)%nat) as Hdot.
  { intros fracpart s2 E2 H. apply Hexp in H.
    destruct (span_digits_spec _ _ _ E2) as [-> Hf].
    rewrite dots_cons, dots_app, Hf, H. simpl. lia. }
  assert (match intpart ++ [] with
          | [] => None
          | ds =>
              match parse_exponent (x :: r) with
              | Some e => Some (DFinite sign (ascii_value ds)
                                  (e - Z.of_nat (length (@nil N)))%Z)
              | None => None
              end
          end = Some d -> (0 + dots (x :: r) <= 1)%nat) as Hplain.
  { intros H. apply Hexp in H. rewrite H. lia. }
  split_code x; cbv beta iota; try exact Hplain.
  destruct (span_digits r) as [fracpart s2] eqn:E2.
  exact (Hdot fracpart s2 eq_refl).
Qed.

Lemma lower_ascii_dot (c : N) : lower_ascii c = 46 -> c = 46.
Proof.
  unfold lower_ascii. destruct ((65 <=? c) && (c <=? 90)) eqn:E; [|auto].
  apply andb_true_iff in E as [H1 _]. apply N.leb_le in H1. lia.
Qed.

Lemma dots_lower (s : str) : dots (map lower_ascii s) = dots s.
Proof.
  induction s as [|c s IH]; [reflexivity|].
  cbn [map]. rewrite !dots_cons, IH.
  destruct (N.eq_dec (lower_ascii c) 46) as [E|E];
    destruct (N.eq_dec c 46) as [E'|E']; try reflexivity.
  - apply lower_ascii_dot in E. contradiction.
  - subst c. exfalso. apply E. reflexivity.
Qed.

Lemma digits_no_dot (s : str) : forallb ascii_digit s = true -> dots s = 0%nat.
Proof.
  induction s as [|c s IH]; [reflexivity|]. cbn [forallb].
  intros H. apply andb_true_iff in H as [Hc Hs].
  rewrite dots_cons, (IH Hs).
  destruct (N.eq_dec c 46) as [->|]; [discriminate Hc | reflexivity].
Qed.

Lemma parse_special_no_dot (sign : bool) (s : str) (d : Decimal) :
  parse_special sign s = Some d -> dots s = 0%nat.
Proof.
  unfold parse_special. rewrite <- (dots_lower s).
  set (l := map lower_ascii s).
  destruct (str_eqb l (lit "inf") || str_eqb l (lit "infinity")) eqn:E.
  { intros _. apply orb_true_iff in E as [E|E]; apply str_eqb_eq in E;
      rewrite E; reflexivity. }
  assert (forall p, startswith l p = true -> l = p ++ drop (length p) l) as Hsw.
  { intros p Hp. apply startswith_prefix in Hp as [k ->].
    rewrite drop_app_length. reflexivity. }
  destruct (startswith l (lit "nan")) eqn:E1.
  { destruct (forallb ascii_digit (drop 3 l)) eqn:Hd; [|discriminate].
    intros _. rewrite (Hsw _ E1), dots_app.
    change (length (lit "nan")) with 3%nat. rewrite (digits_no_dot _ Hd).
    reflexivity. }
  destruct (startswith l (lit "snan")) eqn:E2; [|discriminate].
  destruct (forallb ascii_digit (drop 4 l)) eqn:Hd; [|discriminate].
  intros _. rewrite (Hsw _ E2), dots_app.
  change (length (lit "snan")) with 4%nat. rewrite (digits_no_dot _ Hd).
  reflexivity.
Qed.

Section Separators.
Context {U : Unicode}.

Lemma numeral_chars_dots (s a : str) :
  mapM numeral_char s = Some a -> dots a = dots s.
Proof.
  revert a. induction s as [|c s IH]; intros a.
  - intros [= <-]. reflexivity.
  - cbn [mapM].
    destruct (numeral_char c) as [c'|] eqn:Hc; [|discriminate].
    cbn [mbind option_bind].
    destruct (mapM numeral_char s) as [a'|]; [|discriminate].
    cbn [mbind option_bind fmap option_fmap option_map mret option_ret].
    intros [= <-]. rewrite !dots_cons, (IH a' eq_refl).
    unfold numeral_char in Hc. destruct (c <? 128) eqn:Hlt.
    + injection Hc as <-. reflexivity.
    + apply N.ltb_ge in Hlt. destruct (ext_decimal c) as [dv|]; [|discriminate].
      injection Hc as <-.
      destruct (N.eq_dec (48 + dv) 46); [lia|].
      destruct (N.eq_dec c 46); [lia | reflexivity].
Qed.

Lemma Decimal_of_str_one_dot (s : str) (d : Decimal) :
  Decimal_of_str s = Ok d -> (dots s <= 1)%nat.
Proof.
  unfold Decimal_of_str.
  destruct (mapM numeral_char _) as [a|] eqn:Ha; [|discriminate].
  apply numeral_chars_dots in Ha.
  assert (dots (List.filter (fun c => negb (c =? 95)) (strip s)) = dots s)
    as Hf.
  { clear. unfold dots. rewrite <- (count_occ_strip 46 s) by reflexivity.
    induction (strip s) as [|c r IH]; [reflexivity|].
    cbn [List.filter]. destruct (N.eqb_spec c 95) as [->|Hc]; cbn [negb].
    - rewrite IH. cbn [count_occ].
      destruct (N.eq_dec 95 46); [discriminate | reflexivity].
    - cbn [count_occ]. rewrite IH. reflexivity. }
  rewrite <- Hf, <- Ha.
  destruct (match a with
            | 45 :: r => (true, r)
            | 43 :: r => (false, r)
            | _ => (false, a)
            end) as [sign body] eqn:Hm.
  assert (dots a = dots body) as ->.
  { clear -Hm. destruct a as [|x r]; [injection Hm as _ <-; reflexivity|].
    revert Hm. split_code x; cbv beta iota; intros [= _ <-]; reflexivity. }
  destruct (parse_number sign body) as [d'|] eqn:Hn.
  { intros _. exact (parse_number_one_dot _ _ _ Hn). }
  destruct (parse_special sign body) as [d'|] eqn:Hs; [|discriminate].
  intros _. rewrite (parse_special_no_dot _ _ _ Hs). lia.
Qed.

(** A cell with two or more separators, commas or points in any mix (a
    thousands separator next to a decimal one, as in 1.234,56), is read
    as absent. *)
Theorem parse_decimal_two_separators (raw : str) :
  (2 <= commas raw + dots raw)%nat -> _parse_decimal (Some raw) = Ok None.
Proof.
  intros H. unfold _parse_decimal.
  destruct (negb (nonempty (strip raw))); [reflexivity|].
  destruct (Decimal_of_str _) as [d|e] eqn:E.
  - exfalso. apply Decimal_of_str_one_dot in E.
    change (lit ",") with [44] in E. change (lit ".") with [46] in E.
    change (lit " ") with [32] in E. change (lit "") with (@nil N) in E.
    rewrite dots_after_commas in E. unfold commas, dots in *.
    rewrite !count_occ_remove_char in E by discriminate.
    rewrite !count_occ_strip in E by reflexivity. lia.
  - apply Decimal_of_str_raises in E. subst e. reflexivity.
Qed.

End Separators.

Lemma parse_decimal_two_separators_witness :
  @_parse_decimal basic_latin (Some (lit "1.234,56")) = Ok None.
Proof.
  apply (@parse_decimal_two_separators basic_latin). vm_compute. lia.
Defined.

(** ** Header normalisation *)

Lemma lstrip_by_map (p : N -> bool) (f : N -> N) (s : str) :
  (forall c, p (f c) = p c) ->
  lstrip_by p (map f s) = map f (lstrip_by p s).
Proof.
  intros Hp. induction s as [|c s IH]; [reflexivity|].
  cbn [map lstrip_by]. rewrite Hp. destruct (p c); [exact IH | reflexivity].
Qed.

Lemma strip_map (f : N -> N) (s : str) :
  (forall c, isspace (f c) = isspace c) -> strip (map f s) = map f (strip s).
Proof.
  intros Hf. unfold strip, rstrip_by.
  rewrite (lstrip_by_map _ _ _ Hf), <- map_rev, (lstrip_by_map _ _ _ Hf),
    map_rev.
  reflexivity.
Qed.

Lemma flat_map_flat_map {A B C : Type} (f : A -> list B) (g : B -> list C)
  (l : list A) :
  flat_map g (flat_map f l) = flat_map (fun x => flat_map g (f x)) l.
Proof.
  induction l as [|x l IH]; [reflexivity|].
  cbn [flat_map]. rewrite flat_map_app, IH. reflexivity.
Qed.

Lemma flat_map_map {A B C : Type} (f : A -> B) (g : B -> list C) (l : list A) :
  flat_map g (map f l) = flat_map (fun x => g (f x)) l.
Proof.
  induction l as [|x l IH]; [reflexivity|]. cbn [map flat_map].
  rewrite IH. reflexivity.
Qed.

Lemma isspace_lower_ascii (c : N) : isspace (lower_ascii c) = isspace c.
Proof.
  unfold lower_ascii. destruct ((65 <=? c) && (c <=? 90)) eqn:E; [|reflexivity].
  apply andb_true_iff in E as [H1 H2]. apply N.leb_le in H1, H2.
  unfold isspace.
  repeat match goal with
         | |- context [?a <=? ?b] =>
             destruct (N.leb_spec a b); try lia
         | |- context [?a =? ?b] =>
             destruct (N.eqb_spec a b); try lia
         end; reflexivity.
Qed.

Lemma isspace_dash_for_underscore (c : N) :
  isspace (dash_for_underscore c) = isspace c.
Proof.
  unfold dash_for_underscore.
  destruct (N.eqb_spec c 95) as [->|]; reflexivity.
Qed.

Section HeaderVariants.
Context {U : Unicode}.

(** The normal form, character by character, of a header that is
    already stripped of whitespace and byte-order marks. *)
Lemma normalize_header_chars (value : str) :
  _normalize_header value
  = flat_map
      (fun c =>
         flat_map
           (fun x =>
              flat_map (fun y => if y =? 95 then [45] else [y])
                (if x =? 32 then [] else [x]))
           (upper_char c))
      (lstrip [65279] (strip value)).
Proof.
  unfold _normalize_header, upper.
  change (lit "_") with [95]. change (lit "-") with [45].
  change (lit " ") with [32]. change (lit "") with (@nil N).
  rewrite !replace_char, !flat_map_flat_map. reflexivity.
Qed.

Lemma upper_char_lower_ascii (c : N) :
  upper_char (lower_ascii c) = upper_char c.
Proof.
  unfold lower_ascii. destruct ((65 <=? c) && (c <=? 90)) eqn:E; [|reflexivity].
  apply andb_true_iff in E as [H1 H2]. apply N.leb_le in H1, H2.
  unfold upper_char.
  destruct (N.ltb_spec (c + 32) 128); [|lia].
  destruct (N.ltb_spec c 128); [|lia].
  destruct (N.leb_spec 97 (c + 32)); [|lia].
  destruct (N.leb_spec (c + 32) 122); [|lia].
  destruct (N.leb_spec 97 c); [lia|].
  simpl. f_equal. lia.
Qed.

(** Header matching does not tell the letter case of Basic Latin letters
    apart, nor an underscore from a dash, and the normal form it compares
    holds neither a space nor an underscore. *)
Theorem normalize_header_variants (name : str) :
  _normalize_header (map lower_ascii name) = _normalize_header name
  /\ _normalize_header (map dash_for_underscore name) = _normalize_header name
  /\ ~ In 32 (_normalize_header name)
  /\ ~ In 95 (_normalize_header name)
  /\ (forall target_norm,
        header_matches target_norm (map lower_ascii name)
        = header_matches target_norm name
        /\ header_matches target_norm (map dash_for_underscore name)
           = header_matches target_norm name).
Proof.
  assert (_normalize_header (map lower_ascii name) = _normalize_header name)
    as Hlow.
  { rewrite !normalize_header_chars.
    rewrite (strip_map _ _ isspace_lower_ascii).
    unfold lstrip. rewrite lstrip_by_map.
    - rewrite flat_map_map. apply flat_map_ext. intros c.
      rewrite upper_char_lower_ascii. reflexivity.
    - intros c. cbn [existsb]. rewrite !orb_false_r.
      unfold lower_ascii. destruct ((65 <=? c) && (c <=? 90)) eqn:E;
        [|reflexivity].
      apply andb_true_iff in E as [H1 H2]. apply N.leb_le in H1, H2.
      destruct (N.eqb_spec (c + 32) 65279); [lia|].
      destruct (N.eqb_spec c 65279); [lia | reflexivity]. }
  assert (_normalize_header (map dash_for_underscore name)
          = _normalize_header name) as Hdash.
  { rewrite !normalize_header_chars.
    rewrite (strip_map _ _ isspace_dash_for_underscore).
    unfold lstrip. rewrite lstrip_by_map.
    - rewrite flat_map_map. apply flat_map_ext. intros c.
      unfold dash_for_underscore.
      destruct (N.eqb_spec c 95) as [->|]; reflexivity.
    - intros c. cbn [existsb]. rewrite !orb_false_r.
      unfold dash_for_underscore.
      destruct (N.eqb_spec c 95) as [->|]; reflexivity. }
  split; [exact Hlow|]. split; [exact Hdash|].
  split; [|split].
  - unfold _normalize_header.
    change (lit "_") with [95]. change (lit "-") with [45].
    change (lit " ") with [32]. change (lit "") with (@nil N).
    rewrite !replace_char. intros H.
    apply in_flat_map in H. destruct H as (x & Hx & H).
    apply in_flat_map in Hx. destruct Hx as (y & _ & Hy).
    destruct (y =? 32) eqn:Ey; [destruct Hy|].
    apply N.eqb_neq in Ey. destruct Hy as [Hy|[]]. subst x.
    destruct (y =? 95); destruct H as [H|[]]; congruence.
  - unfold _normalize_header.
    change (lit "_") with [95]. change (lit "-") with [45].
    rewrite replace_char. intros H.
    apply in_flat_map in H. destruct H as (x & _ & H).
    destruct (x =? 95) eqn:Ex; destruct H as [H|[]];
      [discriminate H | apply N.eqb_neq in Ex; congruence].
  - intros t. unfold header_matches. rewrite Hlow, Hdash. auto.
Qed.

End HeaderVariants.

(** ** Column resolution *)

Lemma index_spec (l : list str) (x : str) (i : nat) :
  index l x = Ok i ->
  l !! i = Some x /\ forall j, (j < i)%nat -> l !! j <> Some x.
Proof.
  revert i. induction l as [|y l IH]; intros i; cbn [index]; [discriminate|].
  destruct (str_eqb y x) eqn:E.
  - intros [= <-]. apply str_eqb_eq in E. subst y.
    split; [reflexivity | intros j; lia].
  - destruct (index l x) as [i'|e]; [|discriminate].
    cbn [mbind result_bind]. intros [= <-].
    destruct (IH i' eq_refl) as [Hi Hj]. split; [exact Hi|].
    intros [|j] Hlt; cbn.
    + intros [= ->]. rewrite str_eqb_refl in E. discriminate.
    + apply Hj. lia.
Qed.

Lemma index_of_member (l : list str) (x : str) :
  In x l -> exists i, index l x = Ok i.
Proof.
  induction l as [|y l IH]; [intros []|]. intros Hin. cbn [index].
  destruct (str_eqb y x) eqn:E; [eauto|].
  destruct Hin as [->|Hin]; [rewrite str_eqb_refl in E; discriminate|].
  destruct (IH Hin) as [i ->]. cbn. eauto.
Qed.

Section Columns.
Context {U : Unicode}.

(** Where a label resolves: the position of the first header that
    matches it, provided that header is not the empty string. *)
Lemma resolve_position (header : list str) (label name : str) :
  _resolve_column header label = Some name ->
  exists i,
    index header name = Ok i
    /\ header !! i = Some name
    /\ header_matches (_normalize_header label) name = true
    /\ forall j n, (j < i)%nat -> header !! j = Some n ->
         header_matches (_normalize_header label) n = false.
Proof.
  intros H. unfold _resolve_column in H.
  destruct (resolve_loop_some _ _ _ H) as (before & after & -> & Hm & Hb).
  destruct (index_of_member (before ++ name :: after) name) as [i Hi].
  { apply in_or_app. right. left. reflexivity. }
  exists i. split; [exact Hi|].
  destruct (index_spec _ _ _ Hi) as [Hat Hfirst]. split; [exact Hat|].
  split; [exact Hm|].
  assert (i = length before) as ->.
  { destruct (lt_eq_lt_dec i (length before)) as [[Hlt| ->]|Hgt];
      [|reflexivity|].
    - exfalso. rewrite lookup_app_l in Hat by exact Hlt.
      rewrite List.Forall_forall in Hb.
      apply list_elem_of_lookup_2, list_elem_of_In, Hb in Hat. congruence.
    - exfalso. apply (Hfirst (length before) Hgt).
      rewrite lookup_app_r by lia. rewrite Nat.sub_diag. reflexivity. }
  intros j n Hj Hn. rewrite lookup_app_l in Hn by exact Hj.
  rewrite List.Forall_forall in Hb.
  apply list_elem_of_lookup_2, list_elem_of_In, Hb in Hn. exact Hn.
Qed.

Lemma resolve_columns_fold (header : list str) (columns : list (str * str))
  (m0 : gmap str nat) :
  exists m,
    fold_result
      (fun m (c : str * str) =>
         match _resolve_column header c.1 with
         | Some resolved =>
             if nonempty resolved
             then i ← index header resolved; Ok (<[c.1 := i]> m)
             else Ok m
         | None => Ok m
         end)
      columns m0 = Ok m
    /\ forall label,
         (In label (map fst columns) ->
          forall name,
            _resolve_column header label = Some name -> name <> [] ->
            exists i, index header name = Ok i /\ m !! label = Some i)
         /\ (~ In label (map fst columns)
             \/ _resolve_column header label = None
             \/ _resolve_column header label = Some [] ->
             m !! label = m0 !! label).
Proof.
  revert m0. induction columns as [|c columns IH]; intros m0.
  { exists m0. split; [reflexivity|]. intros label.
    split; [intros [] | reflexivity]. }
  cbn [fold_result].
  assert (exists m1,
            match _resolve_column header c.1 with
            | Some resolved =>
                if nonempty resolved
                then i ← index header resolved; Ok (<[c.1 := i]> m0)
                else Ok m0
            | None => Ok m0
            end = Ok m1
            /\ (forall label, label <> c.1 -> m1 !! label = m0 !! label)
            /\ (forall name,
                  _resolve_column header c.1 = Some name -> name <> [] ->
                  exists i, index header name = Ok i /\ m1 !! c.1 = Some i)
            /\ (_resolve_column header c.1 = None
                \/ _resolve_column header c.1 = Some [] ->
                m1 = m0)) as (m1 & -> & Hother & Hsome & Hnone).
  { destruct (_resolve_column header c.1) as [name|] eqn:Hr.
    - destruct name as [|x name]; cbn [nonempty].
      + exists m0. split; [reflexivity|]. split; [reflexivity|].
        split; [intros name [= <-]; congruence | reflexivity].
      + destruct (resolve_position _ _ _ Hr) as (i & Hi & _).
        rewrite Hi. cbn [mbind result_bind]. exists (<[c.1 := i]> m0).
        split; [reflexivity|]. split.
        { intros label Hne. apply lookup_insert_ne. congruence. }
        split.
        { intros name' [= <-] _. exists i. split; [exact Hi|].
          apply lookup_insert_eq. }
        intros [H|H]; discriminate H.
    - exists m0. split; [reflexivity|]. split; [reflexivity|].
      split; [intros name H; discriminate H | reflexivity]. }
  cbn [mbind result_bind].
  destruct (IH m1) as (m & Hm & Hspec). exists m. split; [exact Hm|].
  intros label. destruct (Hspec label) as [Hin Hout].
  destruct (in_dec (fun a b : str => decide (a = b)) label (map fst columns)) as [Hl|Hl].
  - split.
    + intros _. exact (Hin Hl).
    + intros [Hn|Hn].
      * exfalso. apply Hn. right. exact Hl.
      * rewrite (Hout (or_intror Hn)).
        destruct (decide (label = c.1)) as [->|Hne].
        -- rewrite (Hnone Hn). reflexivity.
        -- apply Hother. exact Hne.
  - rewrite (Hout (or_introl Hl)).
    destruct (decide (label = c.1)) as [->|Hne].
    + split.
      * intros _. exact Hsome.
      * intros [Hn|Hn]; [exfalso; apply Hn; left; reflexivity|].
        rewrite (Hnone Hn). reflexivity.
    + split.
      * intros [E|Hc]; [congruence | contradiction].
      * intros _. apply Hother. exact Hne.
Qed.

(** Resolving a list of labels never fails.  A label of the list is
    entered in the map exactly when some header matches it and the first
    such header is not the empty string; its entry is the position of
    that header, so no earlier header matches the label. *)
Theorem resolve_columns_positions (header : list str)
  (columns : list (str * str)) :
  exists m,
    resolve_columns header columns = Ok m
    /\ (forall label i,
          m !! label = Some i ->
          In label (map fst columns)
          /\ exists name,
               header !! i = Some name /\ name <> []
               /\ header_matches (_normalize_header label) name = true
               /\ forall j n, (j < i)%nat -> header !! j = Some n ->
                    header_matches (_normalize_header label) n = false)
    /\ (forall label,
          In label (map fst columns) ->
          m !! label = None ->
          _resolve_column header label = None
          \/ _resolve_column header label = Some []).
Proof.
  destruct (resolve_columns_fold header columns ∅) as (m & Hm & Hspec).
  exists m. split; [exact Hm|]. split.
  - intros label i Hi. destruct (Hspec label) as [Hin Hout].
    destruct (in_dec (fun a b : str => decide (a = b)) label (map fst columns)) as [Hl|Hl].
    2:{ rewrite (Hout (or_introl Hl)), lookup_empty in Hi. discriminate. }
    split; [exact Hl|].
    destruct (_resolve_column header label) as [name|] eqn:Hr.
    2:{ rewrite (Hout (or_intror (or_introl eq_refl))), lookup_empty in Hi.
        discriminate. }
    destruct name as [|x name].
    { rewrite (Hout (or_intror (or_intror eq_refl))), lookup_empty in Hi.
      discriminate. }
    destruct (Hin Hl _ eq_refl) as (i' & Hidx & Hi'); [discriminate|].
    rewrite Hi in Hi'. injection Hi' as <-.
    destruct (resolve_position _ _ _ Hr) as (i2 & Hidx2 & Hat & Hmatch & Hfirst).
    rewrite Hidx in Hidx2. injection Hidx2 as <-.
    exists (x :: name). split; [exact Hat|]. split; [discriminate|].
    split; [exact Hmatch | exact Hfirst].
  - intros label Hl Hnone. destruct (Hspec label) as [Hin _].
    destruct (_resolve_column header label) as [[|x name]|] eqn:Hr; auto.
    destruct (Hin Hl _ eq_refl) as (i & _ & Hi); [discriminate|].
    congruence.
Qed.

(** ** Content sniffing *)

Lemma sniff_existsb (prefix : str) (data_rows : list (list str)) (j : nat) :
  existsb
    (fun row =>
       match cell row j with
       | Some c => startswith (strip c) prefix
       | None => false
       end)
    (take 200 data_rows) = true
  <-> has_sentinel prefix data_rows j.
Proof.
  rewrite existsb_exists. unfold has_sentinel. split.
  - intros (row & Hin & H). destruct (cell row j) as [c|] eqn:Hc;
      [|discriminate]. eauto.
  - intros (row & c & Hin & Hc & H). exists row. rewrite Hc. auto.
Qed.

Lemma sniff_from_spec (prefix : str) (data_rows : list (list str))
  (header : list str) (idx : nat) :
  match sniff_from prefix data_rows idx header with
  | Some i =>
      (idx <= i < idx + length header)%nat
      /\ has_sentinel prefix data_rows i
      /\ forall j, (idx <= j < i)%nat -> ~ has_sentinel prefix data_rows j
  | None =>
      forall j, (idx <= j < idx + length header)%nat ->
        ~ has_sentinel prefix data_rows j
  end.
Proof.
  revert idx. induction header as [|h header IH]; intros idx;
    cbn [sniff_from length].
  { intros j Hj. lia. }
  destruct (existsb _ (take 200 data_rows)) eqn:E.
  - apply sniff_existsb in E. split; [lia|]. split; [exact E|].
    intros j Hj. lia.
  - assert (~ has_sentinel prefix data_rows idx) as Hidx.
    { intros H. apply sniff_existsb in H. congruence. }
    specialize (IH (S idx)).
    destruct (sniff_from prefix data_rows (S idx) header) as [i|].
    + destruct IH as (Hi & Hs & Hfirst). split; [lia|]. split; [exact Hs|].
      intros j Hj. destruct (decide (j = idx)) as [->|]; [exact Hidx|].
      apply Hfirst. lia.
    + intros j Hj. destruct (decide (j = idx)) as [->|]; [exact Hidx|].
      apply IH. lia.
Qed.

(** The fallback for a required column reads the data only when no
    header resolved the column.  It then enters the first column under the
    header that holds, in one of the first 200 data rows, a cell starting
    with the sentinel, and enters nothing when there is none; the entries
    of all other columns stay as they are. *)
Theorem sniff_fallback_spec (column prefix : str) (header : list str)
  (data_rows : list (list str)) (required_map : gmap str nat) :
  (forall other, other <> column ->
     sniff_fallback column prefix header data_rows required_map !! other
     = required_map !! other)
  /\ (forall i, required_map !! column = Some i ->
        sniff_fallback column prefix header data_rows required_map
        = required_map)
  /\ (required_map !! column = None ->
      match sniff_fallback column prefix header data_rows required_map
              !! column with
      | Some i =>
          (i < length header)%nat
          /\ has_sentinel prefix data_rows i
          /\ forall j, (j < i)%nat -> ~ has_sentinel prefix data_rows j
      | None =>
          forall j, (j < length header)%nat ->
            ~ has_sentinel prefix data_rows j
      end)
  /\ sniff_fallback column prefix header (take 200 data_rows) required_map
     = sniff_fallback column prefix header data_rows required_map.
Proof.
  unfold sniff_fallback. split; [|split; [|split]].
  - intros other Hne. destruct (required_map !! column); [reflexivity|].
    destruct (sniff_from _ _ _ _); [|reflexivity].
    apply lookup_insert_ne. congruence.
  - intros i ->. reflexivity.
  - intros Hnone. rewrite Hnone.
    pose proof (sniff_from_spec prefix data_rows header 0) as H.
    destruct (sniff_from prefix data_rows 0 header) as [i|].
    + rewrite lookup_insert_eq. destruct H as (Hi & Hs & Hfirst).
      split; [lia|]. split; [exact Hs|]. intros j Hj. apply Hfirst. lia.
    + rewrite Hnone. intros j Hj Hs. apply (H j); [lia | exact Hs].
  - assert (forall idx h,
              sniff_from prefix (take 200 data_rows) idx h
              = sniff_from prefix data_rows idx h) as ->; [|reflexivity].
    intros idx h. revert idx. induction h as [|x h IH]; intros idx;
      [reflexivity|].
    cbn [sniff_from]. rewrite take_take, Nat.min_id, IH. reflexivity.
Qed.

End Columns.

(** ** Parsing the rows of a source *)

Lemma filter_nil_all {A : Type} (f : A -> bool) (l : list A) :
  List.filter f l = [] -> forall x, In x l -> f x = false.
Proof.
  induction l as [|a l IH]; cbn [List.filter]; [intros _ x []|].
  destruct (f a) eqn:E; [discriminate|].
  intros Hl x [<-|Hx]; [exact E | exact (IH Hl x Hx)].
Qed.

Lemma filter_has {A : Type} (f : A -> bool) (l : list A) (x : A) :
  In x l -> f x = true -> List.filter f l <> [].
Proof.
  intros Hx Hf Hnil. rewrite (filter_nil_all f l Hnil x Hx) in Hf.
  discriminate.
Qed.


Section Parsing.
Context {U : Unicode}.

Lemma int_raises (s : str) (e : exn) : int s = Raise e -> e = ValueError.
Proof.
  unfold int. destruct s; [intros [= <-]; reflexivity|].
  destruct (digits_value 0 _); [discriminate | intros [= <-]; reflexivity].
Qed.

Lemma all_months_raises (vs : list str) (e : exn) :
  all_months vs = Raise e -> e = ValueError.
Proof.
  induction vs as [|v vs IH]; cbn [all_months]; [discriminate|].
  destruct (isdigit v); [|discriminate].
  destruct (int v) as [n|e'] eqn:E; cbn [mbind result_bind].
  - destruct ((1 <=? n) && (n <=? 12)); [exact IH | discriminate].
  - intros [= <-]. exact (int_raises _ _ E).
Qed.

Lemma find_month_from_raises (data_rows : list (list str))
  (header : list str) (idx : nat) (e : exn) :
  find_month_from data_rows idx header = Raise e -> e = ValueError.
Proof.
  revert idx. induction header as [|h header IH]; intros idx;
    cbn [find_month_from]; [discriminate|].
  destruct (sample_values data_rows idx) as [|v vs]; [apply IH|].
  destruct (all_months (v :: vs)) as [b|e'] eqn:E; cbn [mbind result_bind].
  - destruct b; [discriminate | apply IH].
  - intros [= <-]. exact (all_months_raises _ _ E).
Qed.

Lemma find_month_from_bound (data_rows : list (list str))
  (header : list str) (idx i : nat) :
  find_month_from data_rows idx header = Ok (Some i) ->
  (idx <= i < idx + length header)%nat.
Proof.
  revert idx. induction header as [|h header IH]; intros idx;
    cbn [find_month_from length]; [discriminate|].
  assert (find_month_from data_rows (S idx) header = Ok (Some i) ->
          (idx <= i < idx + S (length header))%nat) as Hrest.
  { intros H. apply IH in H. lia. }
  destruct (sample_values data_rows idx) as [|v vs]; [exact Hrest|].
  destruct (all_months (v :: vs)) as [b|e']; cbn [mbind result_bind];
    [|discriminate].
  destruct b; [|exact Hrest]. intros [= <-]. lia.
Qed.

Lemma sample_values_take (data_rows : list (list str)) (idx : nat) :
  sample_values (take 200 data_rows) idx = sample_values data_rows idx.
Proof. unfold sample_values. rewrite take_take, Nat.min_id. reflexivity. Qed.

Lemma find_month_from_take (data_rows : list (list str))
  (header : list str) (idx : nat) :
  find_month_from (take 200 data_rows) idx header
  = find_month_from data_rows idx header.
Proof.
  revert idx. induction header as [|h header IH]; intros idx;
    cbn [find_month_from]; [reflexivity|].
  rewrite sample_values_take, IH. reflexivity.
Qed.








(** A file is refused with [ValueError] when one of the five required
    labels has no column: no header matches the label and, for the period
    and category labels, no column under the header shows the sentinel
    prefix in the first 200 data rows. *)
Theorem missing_required_column (header : list str)
  (data_rows : list (list str)) (label : str) :
  In label (map fst REQUIRED_COLUMNS) ->
  Forall (fun n => header_matches (_normalize_header label) n = false)
         header ->
  (label = lit "C-TI-0" ->
   forall j, (j < length header)%nat ->
     ~ has_sentinel (lit "TIIDX-") data_rows j) ->
  (label = lit "C-NACEIDX-0" ->
   forall j, (j < length header)%nat ->
     ~ has_sentinel (lit "NACEIDX-") data_rows j) ->
  parse_rows_raw (header :: data_rows) = Raise ValueError.
Proof.
  intros Hin Hno Hti Hnace.
  assert (_resolve_column header label = None) as Hres.
  { unfold _resolve_column. cbv zeta.
    destruct (resolve_loop (_normalize_header label) header) as [name|] eqn:E;
      [|reflexivity].
    apply resolve_loop_some in E. destruct E as (pre & post & -> & Hm & _).
    apply Forall_app in Hno. destruct Hno as [_ Hno].
    apply Forall_cons in Hno. destruct Hno as [Hno _]. congruence. }
  assert (forall prefix column m,
            m !! label = None ->
            (label = column -> forall j, (j < length header)%nat ->
               ~ has_sentinel prefix data_rows j) ->
            sniff_fallback column prefix header data_rows m !! label = None)
    as Hsniff.
  { intros prefix column m Hm Hcol. unfold sniff_fallback.
    destruct (m !! column) eqn:Hmc; [exact Hm|].
    pose proof (sniff_from_spec prefix data_rows header 0) as Hs.
    destruct (sniff_from prefix data_rows 0 header) as [i|]; [|exact Hm].
    destruct (decide (label = column)) as [Heq|Hne].
    - destruct Hs as (Hi & Hs & _). exfalso.
      apply (Hcol Heq i); [lia | exact Hs].
    - rewrite lookup_insert_ne by congruence. exact Hm. }
  unfold parse_rows_raw.
  destruct (resolve_columns_fold header REQUIRED_COLUMNS ∅)
    as (m & Hm & Hspec).
  fold (resolve_columns header REQUIRED_COLUMNS) in Hm. rewrite Hm.
  cbn [mbind result_bind]. cbv zeta.
  destruct (Hspec label) as [_ Hout].
  assert (m !! label = None) as Hml.
  { rewrite (Hout (or_intror (or_introl Hres))). apply lookup_empty. }
  set (rm := sniff_fallback (lit "C-NACEIDX-0") (lit "NACEIDX-") header
               data_rows
               (sniff_fallback (lit "C-TI-0") (lit "TIIDX-") header data_rows
                  m)).
  assert (rm !! label = None) as Hrm.
  { apply Hsniff; [apply Hsniff; [exact Hml|] |].
    - intros E. apply Hti. exact E.
    - intros E. apply Hnace. exact E. }
  apply in_map_iff in Hin. destruct Hin as (c & <- & Hc).
  destruct (List.filter _ REQUIRED_COLUMNS) as [|c0 missing] eqn:Hmiss;
    [|reflexivity].
  pose proof (filter_nil_all _ _ Hmiss c Hc) as Hf. cbv beta in Hf.
  rewrite Hrm in Hf. discriminate.
Qed.

(** The month column is chosen from the first 200 data rows alone and
    lies under the header; the search can fail with [ValueError] only. *)
Theorem month_index_sampled (data_rows : list (list str))
  (header : list str) :
  _find_month_index (take 200 data_rows) header
  = _find_month_index data_rows header
  /\ (forall i, _find_month_index data_rows header = Ok (Some i) ->
        (i < length header)%nat)
  /\ (forall e, _find_month_index data_rows header = Raise e ->
        e = ValueError).
Proof.
  unfold _find_month_index. split; [apply find_month_from_take|]. split.
  - intros i H. apply find_month_from_bound in H. lia.
  - intros e. apply find_month_from_raises.
Qed.

End Parsing.



Lemma missing_required_column_witness :
  @parse_rows_raw basic_latin
    [[lit "Jahr"; lit "NACEIDX"; lit "F-UIDXNOM"; lit "F-UIDXREAL";
      lit "F-BESCHIDX"];
     [lit "2023"; lit "NACEIDX-47"; lit "1"; lit "2"; lit "3"]]
  = Raise ValueError.
Proof.
  apply (@missing_required_column basic_latin _ _ (lit "C-TI-0")).
  - left. reflexivity.
  - repeat constructor.
  - intros _ j Hj H. apply sniff_existsb in H.
    cbn [length] in Hj.
    destruct j as [|[|[|[|[|j]]]]]; [vm_compute in H; discriminate H .. | lia].
  - intros E. vm_compute in E. discriminate E.
Defined.

(** ** The order of dates *)

Lemma date_leb_total (a b : date) :
  date_leb a b = false -> date_leb b a = true.
Proof.
  destruct a as [ya ma da], b as [yb mb db]. unfold date_leb. cbn.
  rewrite !orb_false_iff, !andb_false_iff, !orb_false_iff, !andb_false_iff.
  rewrite !orb_true_iff, !andb_true_iff, !orb_true_iff, !andb_true_iff.
  rewrite !N.ltb_lt, !N.eqb_eq, !N.leb_le, !N.ltb_ge, !N.eqb_neq, !N.leb_gt.
  lia.
Qed.

Lemma date_leb_antisym (a b : date) :
  date_leb a b = true -> date_leb b a = true -> a = b.
Proof.
  destruct a as [ya ma da], b as [yb mb db]. unfold date_leb. cbn.
  rewrite !orb_true_iff, !andb_true_iff, !orb_true_iff, !andb_true_iff.
  rewrite !N.ltb_lt, !N.eqb_eq, !N.leb_le.
  intros H1 H2. f_equal; lia.
Qed.

Lemma date_min_spec (l : list date) :
  match date_min l with
  | Some lo => In lo l /\ forall d, In d l -> date_leb lo d = true
  | None => l = []
  end.
Proof.
  destruct l as [|a l]; [reflexivity|]. cbn [date_min].
  assert (forall l a,
            let m := fold_left (fun a b => if date_leb b a then b else a) l a in
            (m = a \/ In m l) /\ date_leb m a = true
            /\ forall d, In d l -> date_leb m d = true) as Hfold.
  { clear. induction l as [|b l IH]; intros a; cbn [fold_left].
    - split; [left; reflexivity|]. split; [apply date_leb_refl | intros d []].
    - cbv zeta in *. destruct (date_leb b a) eqn:E.
      + destruct (IH b) as (Hin & Hle & Hall). split; [|split].
        * right. destruct Hin as [->|Hin]; [left; reflexivity | right; exact Hin].
        * exact (date_leb_trans _ _ _ Hle E).
        * intros d [<-|Hd]; [exact Hle | exact (Hall d Hd)].
      + destruct (IH a) as (Hin & Hle & Hall). split; [|split].
        * destruct Hin as [->|Hin]; [left; reflexivity | right; right; exact Hin].
        * exact Hle.
        * intros d [<-|Hd]; [|exact (Hall d Hd)].
          exact (date_leb_trans _ _ _ Hle (date_leb_total _ _ E)). }
  destruct (Hfold l a) as (Hin & Hle & Hall). split.
  - destruct Hin as [->|Hin]; [left; reflexivity | right; exact Hin].
  - intros d [<-|Hd]; [exact Hle | exact (Hall d Hd)].
Qed.

Lemma date_max_spec (l : list date) :
  match date_max l with
  | Some hi => In hi l /\ forall d, In d l -> date_leb d hi = true
  | None => l = []
  end.
Proof.
  destruct l as [|a l]; [reflexivity|]. cbn [date_max].
  assert (forall l a,
            let m := fold_left (fun a b => if date_leb a b then b else a) l a in
            (m = a \/ In m l) /\ date_leb a m = true
            /\ forall d, In d l -> date_leb d m = true) as Hfold.
  { clear. induction l as [|b l IH]; intros a; cbn [fold_left].
    - split; [left; reflexivity|]. split; [apply date_leb_refl | intros d []].
    - cbv zeta in *. destruct (date_leb a b) eqn:E.
      + destruct (IH b) as (Hin & Hle & Hall). split; [|split].
        * right. destruct Hin as [->|Hin]; [left; reflexivity | right; exact Hin].
        * exact (date_leb_trans _ _ _ E Hle).
        * intros d [<-|Hd]; [exact Hle | exact (Hall d Hd)].
      + destruct (IH a) as (Hin & Hle & Hall). split; [|split].
        * destruct Hin as [->|Hin]; [left; reflexivity | right; right; exact Hin].
        * exact Hle.
        * intros d [<-|Hd]; [|exact (Hall d Hd)].
          exact (date_leb_trans _ _ _ (date_leb_total _ _ E) Hle). }
  destruct (Hfold l a) as (Hin & Hle & Hall). split.
  - destruct Hin as [->|Hin]; [left; reflexivity | right; exact Hin].
  - intros d [<-|Hd]; [exact Hle | exact (Hall d Hd)].
Qed.

(** ** What a bulk upsert leaves in a table *)

Section UpsertContents.
Context {K V : Type} `{Countable K}.

(** A proposed key ends up with the value of one of its rows. *)
Lemma foldl_upsert_last (rows : list (K * V)) (t : gmap K V) (k : K) :
  k ∈ rows.*1 ->
  exists v, In (k, v) rows /\ foldl upsert t rows !! k = Some v.
Proof.
  revert t. induction rows as [|x rows IH]; intros t Hk; [inversion Hk|].
  cbn [foldl]. destruct (decide (k ∈ rows.*1)) as [Hin|Hout].
  - destruct (IH (upsert t x) Hin) as (v & Hv & Hl).
    exists v. split; [right; exact Hv | exact Hl].
  - rewrite (foldl_upsert_absent _ _ _ Hout).
    rewrite fmap_cons, elem_of_cons in Hk.
    destruct Hk as [->|Hk]; [|contradiction].
    exists x.2. split; [left; destruct x; reflexivity|].
    unfold upsert. apply lookup_insert_eq.
Qed.

Lemma foldl_upsert_cases (rows : list (K * V)) (t : gmap K V) (k : K) (v : V) :
  foldl upsert t rows !! k = Some v -> In (k, v) rows \/ t !! k = Some v.
Proof.
  intros Hl. destruct (decide (k ∈ rows.*1)) as [Hin|Hout].
  - destruct (foldl_upsert_last rows t k Hin) as (v' & Hv' & Hl').
    rewrite Hl in Hl'. injection Hl' as <-. left. exact Hv'.
  - rewrite (foldl_upsert_absent _ _ _ Hout) in Hl. right. exact Hl.
Qed.

Lemma foldl_upsert_keeps (rows : list (K * V)) (t : gmap K V) (k : K) :
  is_Some (t !! k) -> is_Some (foldl upsert t rows !! k).
Proof.
  intros Hk. destruct (decide (k ∈ rows.*1)) as [Hin|Hout].
  - destruct (foldl_upsert_last rows t k Hin) as (v & _ & ->). eauto.
  - rewrite (foldl_upsert_absent _ _ _ Hout). exact Hk.
Qed.

(** A bulk upsert is refused only when its rows repeat a key. *)
Lemma pages_refused (rows : list (K * V)) :
  forallb (fun page => bool_decide (NoDup (page.*1)))
    (paginate (length rows) 100 rows) = false ->
  ~ NoDup (rows.*1).
Proof.
  intros Hf Hnd. apply not_true_iff_false in Hf. apply Hf.
  apply forallb_forall. intros page Hin. apply bool_decide_eq_true.
  assert (forall pages : list (list (K * V)),
            NoDup ((concat pages).*1) ->
            forall page, In page pages -> NoDup (page.*1)) as Hpages.
  { clear. induction pages as [|p pages IH]; intros Hnd page Hin;
      [destruct Hin|].
    cbn [concat] in Hnd. rewrite fmap_app in Hnd.
    apply NoDup_app in Hnd. destruct Hnd as (Hp & _ & Hrest).
    destruct Hin as [<-|Hin]; [exact Hp | exact (IH Hrest page Hin)]. }
  apply (Hpages (paginate (length rows) 100 rows)); [|exact Hin].
  rewrite paginate_concat by lia. exact Hnd.
Qed.

End UpsertContents.

(** ** A run of ingestion *)

Section IngestRuns.
Context {U : Unicode}.

Lemma derive_mart_rows_raises (t : datetime) (rows : list ParsedRow)
  (e : exn) :
  derive_mart_rows t rows = Raise e -> e = ValueError /\ bad_period rows.
Proof.
  unfold bad_period.
  induction rows as [|r rows IH]; cbn [derive_mart_rows]; [discriminate|].
  unfold mart_rows_of.
  destruct (period_to_date_outcome (period_key r)) as [[d Hd]|Hd]; rewrite Hd;
    cbn [mbind result_bind].
  2:{ intros [= <-]. split; [reflexivity|]. exists r.
      split; [left; reflexivity | exact Hd]. }
  assert (derive_mart_rows t rows = Raise e ->
          e = ValueError
          /\ exists r0, In r0 (r :: rows)
                        /\ _period_to_date (period_key r0) = Raise ValueError)
    as Hrest.
  { intros H. destruct (IH H) as (He & r0 & Hr0 & Hbad).
    split; [exact He|]. exists r0. split; [right; exact Hr0 | exact Hbad]. }
  destruct d; cbn [mbind result_bind];
    (destruct (derive_mart_rows t rows) as [later|e'];
     cbn [mbind result_bind]; [discriminate | intros [= <-]; auto]).
Qed.

(** The records of a run, one by one. *)
Lemma derive_mart_rows_In (t : datetime) (rows : list ParsedRow)
  (recs : list ((date * str * str) * (Decimal * datetime))) :
  derive_mart_rows t rows = Ok recs ->
  forall rec,
    In rec recs
    <-> exists r d c v,
          In r rows
          /\ _period_to_date (period_key r) = Ok (Some d)
          /\ In c METRIC_COLUMNS
          /\ dict_get (values r) c.2 = Some v
          /\ rec = ((d, replace (lit "NACEIDX-") (lit "") (nace_key r), c.1),
                    (v, t)).
Proof.
  revert recs. induction rows as [|r rows IH]; intros recs.
  { intros [= <-] rec. split; [intros [] | intros (r & d & c & v & [] & _)]. }
  cbn [derive_mart_rows]. unfold mart_rows_of.
  destruct (_period_to_date (period_key r)) as [d|e] eqn:Hd;
    cbn [mbind result_bind]; [|discriminate].
  destruct (derive_mart_rows t rows) as [later|e] eqn:Hl.
  2:{ destruct d; cbn [mbind result_bind]; discriminate. }
  specialize (IH later eq_refl).
  destruct d as [d|]; cbn [mbind result_bind]; intros [= <-] rec.
  - rewrite in_app_iff, unpivot_In, IH. split.
    + intros [(c & v & Hc & Hv & ->)|(r' & d' & c & v & Hr & Hrest)].
      * exists r, d, c, v. split; [left; reflexivity|]. auto.
      * exists r', d', c, v. split; [right; exact Hr | exact Hrest].
    + intros (r' & d' & c & v & [<-|Hr] & Hd' & Hc & Hv & ->).
      * left. rewrite Hd in Hd'. injection Hd' as <-. exists c, v. auto.
      * right. exists r', d', c, v. auto.
  - cbn [app]. rewrite IH. split.
    + intros (r' & d' & c & v & Hr & Hrest).
      exists r', d', c, v. split; [right; exact Hr | exact Hrest].
    + intros (r' & d' & c & v & [<-|Hr] & Hd' & Hrest).
      * rewrite Hd in Hd'. discriminate.
      * exists r', d', c, v. auto.
Qed.

(** The dates of the summary exist whenever the mart records do. *)
Lemma valid_dates_spec (t : datetime) (rows : list ParsedRow)
  (recs : list ((date * str * str) * (Decimal * datetime))) :
  derive_mart_rows t rows = Ok recs ->
  exists ds,
    valid_dates rows = Ok ds
    /\ (forall d, In d ds
                  <-> exists r, In r rows
                                /\ _period_to_date (period_key r) = Ok (Some d))
    /\ (ds = [] ->
        forall r, In r rows -> _period_to_date (period_key r) = Ok None).
Proof.
  revert recs. induction rows as [|r rows IH]; intros recs.
  { intros _. exists []. split; [reflexivity|]. split.
    - intros d. split; [intros [] | intros (r & [] & _)].
    - intros _ r []. }
  cbn [derive_mart_rows valid_dates]. unfold mart_rows_of.
  destruct (_period_to_date (period_key r)) as [d|e] eqn:Hd;
    cbn [mbind result_bind]; [|discriminate].
  destruct (derive_mart_rows t rows) as [later|e] eqn:Hl.
  2:{ destruct d; cbn [mbind result_bind]; discriminate. }
  destruct (IH later eq_refl) as (ds & -> & Hds & Hnone).
  intros _. cbn [mbind result_bind]. destruct d as [d|].
  - exists (d :: ds). split; [reflexivity|]. split; [|discriminate].
    intros d'. cbn [In]. rewrite Hds. split.
    + intros [E|(r' & Hr & Hd')].
      * subst d'. exists r. split; [left; reflexivity | exact Hd].
      * exists r'. split; [right; exact Hr | exact Hd'].
    + intros (r' & [E|Hr] & Hd').
      * subst r'. left. congruence.
      * right. exists r'. split; [exact Hr | exact Hd'].
  - exists ds. split; [reflexivity|]. split.
    + intros d'. rewrite Hds. split.
      * intros (r' & Hr & Hd'). exists r'.
        split; [right; exact Hr | exact Hd'].
      * intros (r' & [E|Hr] & Hd'); [subst r'; congruence|].
        exists r'. split; [exact Hr | exact Hd'].
    + intros E r' [<-|Hr]; [exact Hd | exact (Hnone E r' Hr)].
Qed.

(** The outcome of [ingest] once the rows are parsed: either the run
    commits both bulk upserts and the summary is computed, or it fails
    before anything is committed. *)
Lemma ingest_rows_spec (mode : str) (rows : list ParsedRow) (t : datetime)
  (db : Store) :
  match ingest_rows mode rows t db with
  | (db', Ok s) =>
      exists recs ds,
        derive_mart_rows t rows = Ok recs
        /\ valid_dates rows = Ok ds
        /\ raw_table db' = foldl upsert (raw_table db) (raw_row t <$> rows)
        /\ mart_table db' = foldl upsert (mart_table db) recs
        /\ rows_loaded s = length rows
        /\ distinct_nace s
           = size (list_to_set (nace_key <$> rows) : gset str)
        /\ min_date s = date_min ds
        /\ max_date s = date_max ds
        /\ source_mode s = mode
  | (db', Raise e) =>
      db' = db
      /\ ((e = ValueError /\ bad_period rows)
          \/ (e = CardinalityViolation /\ repeated_key t rows))
  end.
Proof.
  destruct rows as [|r rows].
  { cbn. exists [], []. repeat split; reflexivity. }
  rewrite ingest_rows_nonempty by discriminate.
  unfold ingest_transaction. rewrite execute_values_eq.
  destruct (forallb _ _) eqn:Hraw; cbn [mbind result_bind].
  2:{ split; [reflexivity|]. right. split; [reflexivity|]. left.
      apply pages_refused. exact Hraw. }
  destruct (derive_mart_rows t (r :: rows)) as [recs|e] eqn:Hrecs;
    cbn [mbind result_bind].
  2:{ split; [reflexivity|]. left. exact (derive_mart_rows_raises _ _ _ Hrecs). }
  rewrite execute_values_eq.
  destruct (forallb _ (paginate (length recs) 100 recs)) eqn:Hmart;
    cbn [mbind result_bind].
  2:{ split; [reflexivity|]. right. split; [reflexivity|]. right.
      exists recs. split; [exact Hrecs|]. apply pages_refused. exact Hmart. }
  destruct (valid_dates_spec _ _ _ Hrecs) as (ds & Hds & _).
  unfold summarize. rewrite Hds. cbn [mbind result_bind].
  exists recs, ds. repeat split; reflexivity.
Qed.

Variable csv_rows : str -> list (list str).



(** A successful run removes no row from either table, and every row of
    a table after the run is a row from before the run, as it was, or
    carries the timestamp of the run. *)
Theorem ingest_preserves_rows (mode source_text : str) (t : datetime)
  (db db' : Store) (s : Summary) :
  ingest csv_rows mode source_text t db = (db', Ok s) ->
  (forall k, is_Some (raw_table db !! k) -> is_Some (raw_table db' !! k))
  /\ (forall k, is_Some (mart_table db !! k) -> is_Some (mart_table db' !! k))
  /\ (forall k v, raw_table db' !! k = Some v ->
        raw_table db !! k = Some v \/ v.2 = t)
  /\ (forall k v, mart_table db' !! k = Some v ->
        mart_table db !! k = Some v \/ v.2 = t).
Proof.
  unfold ingest.
  destruct (_parse_csv_rows csv_rows source_text) as [rows|e'];
    [|discriminate].
  pose proof (ingest_rows_spec mode rows t db) as H.
  destruct (ingest_rows mode rows t db) as [db1 [s1|e1]]; [|discriminate].
  intros [= <- <-].
  destruct H as (recs & ds & Hrecs & _ & Hraw & Hmart & _).
  rewrite Hraw, Hmart. split; [|split; [|split]].
  - intros k. apply foldl_upsert_keeps.
  - intros k. apply foldl_upsert_keeps.
  - intros k v Hl. apply foldl_upsert_cases in Hl.
    destruct Hl as [Hin|Hold]; [right | left; exact Hold].
    rewrite <- list_elem_of_In, list_elem_of_fmap in Hin.
    destruct Hin as (r & E & _). injection E as _ ->. reflexivity.
  - intros k v Hl. apply foldl_upsert_cases in Hl.
    destruct Hl as [Hin|Hold]; [right | left; exact Hold].
    apply (derive_mart_rows_In _ _ _ Hrecs) in Hin.
    destruct Hin as (r & d & c & v0 & _ & _ & _ & _ & E).
    injection E as _ ->. reflexivity.
Qed.


(** The summary of a successful run counts the parsed rows, counts at
    most that many categories (at least one when there is a row), and
    reports as first and last date the least and the greatest of the
    dates that the period keys resolve to: both are dates of rows, and
    both are absent exactly when no period key resolves. *)
Theorem ingest_summary_bounds (mode source_text : str) (t : datetime)
  (db db' : Store) (s : Summary) (rows : list ParsedRow) :
  ingest csv_rows mode source_text t db = (db', Ok s) ->
  _parse_csv_rows csv_rows source_text = Ok rows ->
  rows_loaded s = length rows
  /\ (distinct_nace s <= rows_loaded s)%nat
  /\ (rows <> [] -> (1 <= distinct_nace s)%nat)
  /\ source_mode s = mode
  /\ match min_date s, max_date s with
     | Some lo, Some hi =>
         date_leb lo hi = true
         /\ (exists r, In r rows
                       /\ _period_to_date (period_key r) = Ok (Some lo))
         /\ (exists r, In r rows
                       /\ _period_to_date (period_key r) = Ok (Some hi))
         /\ forall r d, In r rows ->
              _period_to_date (period_key r) = Ok (Some d) ->
              date_leb lo d = true /\ date_leb d hi = true
     | None, None =>
         forall r, In r rows -> _period_to_date (period_key r) = Ok None
     | _, _ => False
     end.
Proof.
  unfold ingest. intros Hrun Hp. rewrite Hp in Hrun.
  pose proof (ingest_rows_spec mode rows t db) as H.
  destruct (ingest_rows mode rows t db) as [db1 [s1|e1]]; [|discriminate].
  injection Hrun as <- <-.
  destruct H as (recs & ds & Hrecs & Hds & _ & _ & Hn & Hnace & Hmin & Hmax
                 & Hmode).
  destruct (valid_dates_spec _ _ _ Hrecs) as (ds' & Hds' & Hin & Hnone).
  rewrite Hds in Hds'. injection Hds' as <-.
  rewrite Hn, Hnace, Hmin, Hmax.
  split; [reflexivity|]. split; [|split; [|split; [exact Hmode|]]].
  - clear. induction rows as [|r rows IH]; [cbn; rewrite size_empty; lia|].
    cbn [fmap list_fmap list_to_set length].
    rewrite size_union_alt, size_singleton.
    pose proof (subseteq_size _ _
                  (subseteq_difference_l
                     (list_to_set (nace_key <$> rows) : gset str)
                     {[nace_key r]} _ (reflexivity _))) as Hsub.
    cbn in *. lia.
  - destruct rows as [|r rows]; [congruence|]. intros _.
    cbn [fmap list_fmap list_to_set].
    rewrite size_union_alt, size_singleton. lia.
  - pose proof (date_min_spec ds) as Hlo. pose proof (date_max_spec ds) as Hhi.
    destruct (date_min ds) as [lo|], (date_max ds) as [hi|].
    + destruct Hlo as [Hlo_in Hlo], Hhi as [Hhi_in Hhi].
      split; [exact (Hlo hi Hhi_in)|].
      split; [apply Hin; exact Hlo_in|].
      split; [apply Hin; exact Hhi_in|].
      intros r d Hr Hd.
      assert (In d ds) as Hd_in by (apply Hin; exists r; auto).
      split; [exact (Hlo d Hd_in) | exact (Hhi d Hd_in)].
    + subst ds. destruct Hlo as [[] _].
    + subst ds. destruct Hhi as [[] _].
    + exact (Hnone Hlo).
Qed.


End IngestRuns.


Lemma ingest_preserves_rows_witness :
  exists db' s,
    @ingest basic_latin plain_csv_rows (lit "mock") sample_text 2%Z
      stocked_store = (db', Ok s)
    /\ (forall k, is_Some (raw_table stocked_store !! k) ->
          is_Some (raw_table db' !! k))
    /\ (forall k, is_Some (mart_table stocked_store !! k) ->
          is_Some (mart_table db' !! k))
    /\ (forall k v, raw_table db' !! k = Some v ->
          raw_table stocked_store !! k = Some v \/ v.2 = 2%Z)
    /\ (forall k v, mart_table db' !! k = Some v ->
          mart_table stocked_store !! k = Some v \/ v.2 = 2%Z).
Proof.
  eexists _, _. split; [vm_compute; reflexivity|].
  eapply (@ingest_preserves_rows basic_latin plain_csv_rows (lit "mock")
           sample_text 2%Z stocked_store).
  vm_compute. reflexivity.
Defined.


Lemma ingest_summary_bounds_witness :
  exists db' s rows,
    @ingest basic_latin plain_csv_rows (lit "mock") sample_text 2%Z
      stocked_store = (db', Ok s)
    /\ @_parse_csv_rows basic_latin plain_csv_rows sample_text = Ok rows
    /\ rows_loaded s = 3%nat
    /\ distinct_nace s = 2%nat
    /\ min_date s = Some (Date 2023 1 1)
    /\ max_date s = Some (Date 2023 2 1)
    /\ rows_loaded s = length rows
    /\ (distinct_nace s <= rows_loaded s)%nat.
Proof.
  eexists _, _, _. split; [vm_compute; reflexivity|].
  split; [vm_compute; reflexivity|].
  split; [reflexivity|]. split; [reflexivity|].
  split; [reflexivity|]. split; [reflexivity|].
  pose proof (@ingest_summary_bounds basic_latin plain_csv_rows (lit "mock")
                sample_text 2%Z stocked_store _ _ _
                ltac:(vm_compute; reflexivity) ltac:(vm_compute; reflexivity))
    as (H1 & H2 & _).
  split; [exact H1 | exact H2].
Defined.

(** ** Answers as functions of the table *)

Lemma same_date_same_row {A : Type} (f : A -> date) (l : list A) (a b : A) :
  NoDup (f <$> l) -> In a l -> In b l -> f a = f b -> a = b.
Proof.
  induction l as [|x l IH]; [intros _ []|].
  rewrite fmap_cons, NoDup_cons. intros [Hx Hl] Ha Hb E.
  destruct Ha as [<-|Ha], Hb as [<-|Hb].
  - reflexivity.
  - exfalso. apply Hx. rewrite E. apply list_elem_of_fmap.
    exists b. split; [reflexivity | apply list_elem_of_In; exact Hb].
  - exfalso. apply Hx. rewrite <- E. apply list_elem_of_fmap.
    exists a. split; [reflexivity | apply list_elem_of_In; exact Ha].
  - exact (IH Hl Ha Hb E).
Qed.

(** Rows with pairwise distinct dates have one descending order. *)
Lemma sorted_by_date_unique {A : Type} (f : A -> date) (l1 l2 : list A) :
  NoDup (f <$> l1) ->
  Sorted (date_desc f) l1 -> Sorted (date_desc f) l2 ->
  l1 ≡ₚ l2 -> l1 = l2.
Proof.
  revert l2. induction l1 as [|a l1 IH]; intros l2 Hnd H1 H2 Hperm.
  { apply Permutation_nil_l in Hperm. congruence. }
  destruct l2 as [|b l2].
  { symmetry in Hperm. apply Permutation_nil_l in Hperm. discriminate. }
  assert (In a (b :: l2)) as Ha.
  { rewrite <- list_elem_of_In, <- Hperm. left. }
  assert (In b (a :: l1)) as Hb.
  { rewrite <- list_elem_of_In, Hperm. left. }
  assert (a = b) as <-.
  { apply (same_date_same_row f (a :: l1)); [exact Hnd | left; reflexivity
                                            | exact Hb |].
    apply date_leb_antisym.
    - exact (sorted_head_latest f b l2 H2 a Ha).
    - exact (sorted_head_latest f a l1 H1 b Hb). }
  f_equal. apply IH.
  - rewrite fmap_cons in Hnd. apply NoDup_cons in Hnd. tauto.
  - apply Sorted_inv in H1. tauto.
  - apply Sorted_inv in H2. tauto.
  - exact (Permutation_cons_inv Hperm).
Qed.

Lemma latest_matching_In
  (mart : gmap (date * str * str) (Decimal * datetime)) (nace metric : str)
  (d : date) (v : Decimal) :
  In (d, v) (latest_matching mart nace metric)
  <-> exists ts, mart !! (d, nace, metric) = Some (v, ts).
Proof.
  unfold latest_matching.
  rewrite <- list_elem_of_In, list_elem_of_omap. split.
  - intros ([[[d' n'] m'] [v' ts]] & Hin & Hf).
    apply elem_of_map_to_list in Hin. cbn [fst snd] in Hf.
    destruct (str_eqb n' nace) eqn:En; [|discriminate Hf].
    destruct (str_eqb m' metric) eqn:Em; [|discriminate Hf].
    apply str_eqb_eq in En, Em. subst n' m'.
    cbn [andb] in Hf. injection Hf as -> ->. eauto.
  - intros (ts & Hl).
    exists ((d, nace, metric), (v, ts)).
    split; [apply elem_of_map_to_list, Hl|].
    cbn [fst snd]. rewrite !str_eqb_refl. reflexivity.
Qed.

(** The table holds one row per date, category and metric, so the rows
    of one category and metric have pairwise distinct dates. *)
Lemma latest_matching_dates
  (mart : gmap (date * str * str) (Decimal * datetime)) (nace metric : str) :
  NoDup (fst <$> latest_matching mart nace metric).
Proof.
  unfold latest_matching.
  pose proof (NoDup_fst_map_to_list mart) as Hnd.
  induction (map_to_list mart) as [|[[[d n] m] [v ts]] l IH];
    [constructor|].
  rewrite fmap_cons in Hnd. apply NoDup_cons in Hnd. destruct Hnd as [Hx Hl].
  cbn [omap list_omap fst snd].
  destruct (str_eqb n nace && str_eqb m metric) eqn:E; [|exact (IH Hl)].
  apply andb_true_iff in E. rewrite !str_eqb_eq in E. destruct E as [-> ->].
  cbn [fmap list_fmap fst]. apply NoDup_cons. split; [|exact (IH Hl)].
  intros Hin. apply Hx.
  apply list_elem_of_fmap in Hin. destruct Hin as ([d' v'] & Hd & Hin).
  cbn [fst] in Hd. subst d'.
  apply list_elem_of_omap in Hin.
  destruct Hin as ([[[d' n'] m'] [v'' ts']] & Hin & Hf).
  cbn [fst snd] in Hf.
  destruct (str_eqb n' nace) eqn:En; [|discriminate Hf].
  destruct (str_eqb m' metric) eqn:Em; [|discriminate Hf].
  apply str_eqb_eq in En, Em. subst n' m'.
  cbn [andb] in Hf. injection Hf as -> ->.
  apply list_elem_of_fmap. exists ((d, nace, metric), (v', ts')).
  split; [reflexivity | exact Hin].
Qed.

Lemma metric_allowed (c : str * str) :
  In c METRIC_COLUMNS -> In c.1 ALLOWED_METRICS.
Proof.
  unfold METRIC_COLUMNS, ALLOWED_METRICS. cbn [In].
  intros [<-|[<-|[<-|[<-|[<-|[]]]]]]; cbn [fst]; tauto.
Qed.

Section Answers.
Context {U : Unicode}.
Variable to_float : Decimal -> float.

(** The query of the latest-value endpoint has one possible result: the
    rows of a category and metric differ in their dates, so the table
    fixes which rows are the latest two, and with them the answer. *)
Theorem latest_rows_unique
  (mart : gmap (date * str * str) (Decimal * datetime)) (nace metric : str)
  (rows1 rows2 : list (date * Decimal)) :
  select_latest mart nace metric rows1 ->
  select_latest mart nace metric rows2 ->
  rows1 = rows2
  /\ get_latest to_float rows1 nace metric
     = get_latest to_float rows2 nace metric.
Proof.
  intros (s1 & Hp1 & Hs1 & ->) (s2 & Hp2 & Hs2 & ->).
  assert (s1 = s2) as ->; [|split; reflexivity].
  apply (sorted_by_date_unique fst); [|exact Hs1 | exact Hs2|].
  - rewrite Hp1. apply latest_matching_dates.
  - rewrite Hp1, Hp2. reflexivity.
Qed.

(** The nominal-vs-real endpoint gives one answer whatever the order in
    which the store lists the rows of one date. *)
Theorem nominal_vs_real_order_independent
  (mart : gmap (date * str * str) (Decimal * datetime)) (nace : str)
  (rows1 rows2 : list (date * str * Decimal)) :
  select_nominal_real mart nace rows1 ->
  select_nominal_real mart nace rows2 ->
  nominal_vs_real to_float rows1 nace = nominal_vs_real to_float rows2 nace.
Proof.
  intros [Hp1 Hs1] [Hp2 Hs2].
  assert (rows1 ≡ₚ rows2) as Hperm by (rewrite Hp1, Hp2; reflexivity).
  destruct rows1 as [|a rows1].
  { apply Permutation_nil_l in Hperm. subst rows2. reflexivity. }
  destruct rows2 as [|b rows2].
  { symmetry in Hperm. apply Permutation_nil_l in Hperm. discriminate. }
  assert (a.1.1 = b.1.1) as Hdate.
  { apply date_leb_antisym.
    - apply (sorted_head_latest (fun r => r.1.1) b rows2 Hs2).
      rewrite <- list_elem_of_In, <- Hperm. left.
    - apply (sorted_head_latest (fun r => r.1.1) a rows1 Hs1).
      rewrite <- list_elem_of_In, Hperm. left. }
  unfold nominal_vs_real. cbv zeta.
  rewrite !(metric_map_lookup to_float mart nace (a :: rows1) a.1.1)
    by (first [exact Hp1 | left; reflexivity | right; reflexivity]).
  rewrite !(metric_map_lookup to_float mart nace (b :: rows2) b.1.1)
    by (first [exact Hp2 | left; reflexivity | right; reflexivity]).
  rewrite Hdate. reflexivity.
Qed.

(** What a run has put into the mart is served: for a metric present in
    a parsed row whose period key resolves to a date, the latest-value
    endpoint, asked after the run for the row's category code and that
    metric, answers with a value, not with 400 or 404, and the date it
    reports is not before the row's date. *)
Theorem ingested_metric_is_served (csv_rows : str -> list (list str))
  (mode source_text : str) (t : datetime) (db db' : Store) (s : Summary)
  (rows : list ParsedRow) (r : ParsedRow) (d : date) (c : str * str)
  (v : Decimal) (answer : list (date * Decimal)) :
  ingest csv_rows mode source_text t db = (db', Ok s) ->
  _parse_csv_rows csv_rows source_text = Ok rows ->
  In r rows ->
  _period_to_date (period_key r) = Ok (Some d) ->
  In c METRIC_COLUMNS ->
  dict_get (values r) c.2 = Some v ->
  select_latest (mart_table db')
    (replace (lit "NACEIDX-") (lit "") (nace_key r)) c.1 answer ->
  exists resp,
    get_latest to_float answer
      (replace (lit "NACEIDX-") (lit "") (nace_key r)) c.1 = Ok resp
    /\ latest_metric resp = c.1
    /\ date_leb d (latest_date resp) = true.
Proof.
  unfold ingest. intros Hrun Hp Hr Hd Hc Hv (sorted & Hperm & Hsorted & ->).
  rewrite Hp in Hrun.
  pose proof (ingest_rows_spec mode rows t db) as H.
  destruct (ingest_rows mode rows t db) as [db1 [s1|e1]]; [|discriminate].
  injection Hrun as <- <-.
  destruct H as (recs & ds & Hrecs & _ & _ & Hmart & _).
  set (code := replace (lit "NACEIDX-") (lit "") (nace_key r)) in *.
  destruct (foldl_upsert_last recs (mart_table db) (d, code, c.1))
    as (v' & Hv' & Hl).
  { rewrite list_elem_of_fmap. exists ((d, code, c.1), (v, t)).
    split; [reflexivity|]. apply list_elem_of_In.
    apply (derive_mart_rows_In _ _ _ Hrecs). exists r, d, c, v. auto. }
  rewrite <- Hmart in Hl.
  assert (In (d, v'.1) (latest_matching (mart_table db1) code c.1)) as Hin.
  { apply latest_matching_In. exists v'.2. rewrite Hl.
    destruct v'; reflexivity. }
  rewrite <- list_elem_of_In, <- Hperm, list_elem_of_In in Hin.
  destruct sorted as [|l rest]; [destruct Hin|].
  unfold get_latest.
  rewrite (allowed_metric_valid c.1 (metric_allowed c Hc)).
  cbn [mbind result_bind take]. eexists. split; [reflexivity|].
  cbn [latest_metric latest_date]. split; [reflexivity|].
  exact (sorted_head_latest fst l rest Hsorted (d, v'.1) Hin).
Qed.

End Answers.

Lemma latest_rows_unique_witness :
  take 2 [ (Date 2023 2 1, DFinite false 105 0);
           (Date 2023 1 1, DFinite false 103 0) ]
  = [ (Date 2023 2 1, DFinite false 105 0);
      (Date 2023 1 1, DFinite false 103 0) ]
  /\ get_latest float_of_integral
       (take 2 [ (Date 2023 2 1, DFinite false 105 0);
                 (Date 2023 1 1, DFinite false 103 0) ])
       (lit "47") (lit "uidxnom")
     = get_latest float_of_integral
         [ (Date 2023 2 1, DFinite false 105 0);
           (Date 2023 1 1, DFinite false 103 0) ]
         (lit "47") (lit "uidxnom").
Proof.
  apply (latest_rows_unique float_of_integral sample_mart).
  - exists [ (Date 2023 2 1, DFinite false 105 0);
             (Date 2023 1 1, DFinite false 103 0) ].
    split; [|split; [repeat constructor | reflexivity]].
    apply (bool_decide_unpack _). vm_compute. exact I.
  - exists [ (Date 2023 2 1, DFinite false 105 0);
             (Date 2023 1 1, DFinite false 103 0) ].
    split; [|split; [repeat constructor | reflexivity]].
    apply (bool_decide_unpack _). vm_compute. exact I.
Defined.

Lemma nominal_vs_real_order_independent_witness :
  nominal_vs_real float_of_integral
    [ (Date 2023 1 1, lit "uidxnom", DFinite false 103 0);
      (Date 2023 1 1, lit "uidxreal", DFinite false 101 0) ] (lit "47")
  = nominal_vs_real float_of_integral
      [ (Date 2023 1 1, lit "uidxreal", DFinite false 101 0);
        (Date 2023 1 1, lit "uidxnom", DFinite false 103 0) ] (lit "47").
Proof.
  apply (nominal_vs_real_order_independent float_of_integral january_mart).
  - split; [|repeat constructor].
    apply (bool_decide_unpack _). vm_compute. exact I.
  - split; [|repeat constructor].
    apply (bool_decide_unpack _). vm_compute. exact I.
Defined.

Lemma ingested_metric_is_served_witness :
  exists db' s rows r,
    @ingest basic_latin plain_csv_rows (lit "mock") sample_text 2%Z
      stocked_store = (db', Ok s)
    /\ @_parse_csv_rows basic_latin plain_csv_rows sample_text = Ok rows
    /\ In r rows
    /\ exists resp,
         get_latest float_of_integral
           [ (Date 2023 2 1, DFinite false 1025 (-1));
             (Date 2023 1 1, DFinite false 1015 (-1)) ]
           (replace (lit "NACEIDX-") (lit "") (nace_key r)) (lit "uidxnom")
         = Ok resp
         /\ latest_metric resp = lit "uidxnom"
         /\ date_leb (Date 2023 1 1) (latest_date resp) = true.
Proof.
  eexists _, _, _, _. split; [vm_compute; reflexivity|].
  split; [vm_compute; reflexivity|]. split; [left; reflexivity|].
  eapply (@ingested_metric_is_served basic_latin float_of_integral
            plain_csv_rows (lit "mock") sample_text 2%Z stocked_store
            _ _ _ _ (Date 2023 1 1) (lit "uidxnom", lit "uidxnom")).
  - vm_compute. reflexivity.
  - vm_compute. reflexivity.
  - left. reflexivity.
  - vm_compute. reflexivity.
  - left. reflexivity.
  - vm_compute. reflexivity.
  - exists [ (Date 2023 2 1, DFinite false 1025 (-1));
             (Date 2023 1 1, DFinite false 1015 (-1)) ].
    split; [|split; [repeat constructor | reflexivity]].
    apply (bool_decide_unpack _). vm_compute. exact I.
Defined.

(** ** Plain numerals *)

Lemma replace_space (s : str) : replace [32] [] s = unspaced s.
Proof.
  rewrite replace_char. unfold unspaced.
  induction s as [|x s IH]; [reflexivity|].
  cbn [flat_map List.filter]. rewrite IH.
  destruct (x =? 32); reflexivity.
Qed.

Lemma lstrip_by_id (p : N -> bool) (s : str) :
  (forall c, In c s -> p c = false) -> lstrip_by p s = s.
Proof.
  destruct s as [|c s]; [reflexivity|]. intros H. cbn [lstrip_by].
  rewrite (H c (or_introl eq_refl)). reflexivity.
Qed.

Lemma strip_id (s : str) :
  (forall c, In c s -> isspace c = false) -> strip s = s.
Proof.
  intros H. unfold strip, rstrip_by. rewrite (lstrip_by_id _ s H).
  rewrite lstrip_by_id; [apply rev_involutive|].
  intros c Hc. apply H. apply in_rev. exact Hc.
Qed.

Lemma lstrip_unspaced (s : str) :
  (forall c, In c (unspaced s) -> isspace c = false) ->
  unspaced (lstrip_by isspace s) = unspaced s.
Proof.
  induction s as [|c s IH]; [reflexivity|]. intros H.
  cbn [lstrip_by]. destruct (isspace c) eqn:E; [|reflexivity].
  unfold unspaced in *. cbn [List.filter] in *.
  destruct (c =? 32) eqn:E32; cbn [negb] in *.
  - apply IH. exact H.
  - rewrite (H c (or_introl eq_refl)) in E. discriminate.
Qed.

Lemma strip_unspaced (s : str) :
  (forall c, In c (unspaced s) -> isspace c = false) ->
  unspaced (strip s) = unspaced s.
Proof.
  intros H. unfold strip, rstrip_by.
  assert (forall x, unspaced (rev x) = rev (unspaced x)) as Hrev.
  { intros x. apply filter_rev. }
  rewrite Hrev, lstrip_unspaced.
  - rewrite Hrev, rev_involutive. apply lstrip_unspaced. exact H.
  - intros c Hc. rewrite Hrev, <- in_rev, (lstrip_unspaced s H) in Hc.
    apply H. exact Hc.
Qed.

Lemma numeral_sign_plain (c : N) :
  numeral_sign c = true ->
  isspace c = false /\ (c =? 32) = false /\ (c =? 95) = false
  /\ (c <? 128) = true.
Proof.
  unfold numeral_sign, ascii_digit.
  rewrite orb_true_iff, !andb_true_iff, !N.leb_le. intros H.
  split; [|split; [|split]].
  - apply not_true_iff_false. unfold isspace.
    rewrite !orb_true_iff, !andb_true_iff, !N.leb_le, !N.eqb_eq. lia.
  - apply N.eqb_neq. lia.
  - apply N.eqb_neq. lia.
  - apply N.ltb_lt. lia.
Qed.

Lemma digit_numeral_sign (c : N) : ascii_digit c = true -> numeral_sign c = true.
Proof. unfold numeral_sign. intros ->. reflexivity. Qed.

Lemma plain_numeral_signs (neg : bool) (a : str) (sep : N)
  (frac : option str) :
  forallb ascii_digit a = true ->
  forallb ascii_digit (default [] frac) = true ->
  sep = 44 \/ sep = 46 ->
  forall c, In c (plain_numeral neg a sep frac) -> numeral_sign c = true.
Proof.
  intros Ha Hb Hsep c. unfold plain_numeral. rewrite !in_app_iff.
  rewrite forallb_forall in Ha, Hb.
  intros [Hc|[Hc|Hc]].
  - destruct neg; [|destruct Hc]. destruct Hc as [<-|[]]. reflexivity.
  - apply digit_numeral_sign, Ha, Hc.
  - destruct frac as [b|]; [|destruct Hc]. destruct Hc as [<-|Hc].
    + destruct Hsep as [-> | ->]; reflexivity.
    + apply digit_numeral_sign, Hb, Hc.
Qed.

Lemma span_digits_app (a r : str) :
  forallb ascii_digit a = true ->
  match r with [] => True | c :: _ => ascii_digit c = false end ->
  span_digits (a ++ r) = (a, r).
Proof.
  intros Ha Hr. induction a as [|c a IH]; cbn [app span_digits].
  - destruct r as [|c r]; [reflexivity|]. cbn [span_digits]. rewrite Hr.
    reflexivity.
  - cbn [forallb] in Ha. apply andb_true_iff in Ha as [Hc Ha].
    rewrite Hc, (IH Ha). reflexivity.
Qed.

Lemma split_sign_none (c : N) (r : str) :
  numeral_sign c = true -> c <> 45 -> split_sign (c :: r) = (false, c :: r).
Proof.
  intros Hc H45.
  assert (c <> 43) as H43.
  { intros ->. discriminate Hc. }
  clear Hc. unfold split_sign. split_code c; try reflexivity; congruence.
Qed.

Section Numerals.
Context {U : Unicode}.

Lemma numeral_chars_id (s : str) :
  (forall c, In c s -> numeral_sign c = true) ->
  mapM numeral_char s = Some s.
Proof.
  induction s as [|c s IH]; [reflexivity|]. intros H. cbn [mapM].
  destruct (numeral_sign_plain c (H c (or_introl eq_refl)))
    as (_ & _ & _ & Hlt).
  assert (numeral_char c = Some c) as ->
    by (unfold numeral_char; rewrite Hlt; reflexivity).
  rewrite IH by (intros x Hx; apply H; right; exact Hx). reflexivity.
Qed.

Lemma Decimal_of_str_eq (s : str) :
  Decimal_of_str s
  = match mapM numeral_char
            (List.filter (fun c => negb (c =? 95)) (strip s)) with
    | None => Raise InvalidOperation
    | Some a =>
        let '(sign, body) := split_sign a in
        match parse_number sign body with
        | Some d => Ok d
        | None =>
            match parse_special sign body with
            | Some d => Ok d
            | None => Raise InvalidOperation
            end
        end
    end.
Proof. reflexivity. Qed.

(** [Decimal] on a plain numeral with a decimal point. *)
Lemma Decimal_of_plain_numeral (neg : bool) (a : str) (frac : option str) :
  forallb ascii_digit a = true ->
  forallb ascii_digit (default [] frac) = true ->
  a ++ default [] frac <> [] ->
  Decimal_of_str (plain_numeral neg a 46 frac)
  = Ok (DFinite neg (ascii_value (a ++ default [] frac))
          (- Z.of_nat (length (default [] frac)))).
Proof.
  intros Ha Hb Hne.
  pose proof (plain_numeral_signs neg a 46 frac Ha Hb (or_intror eq_refl))
    as Hsigns.
  rewrite Decimal_of_str_eq.
  rewrite strip_id
    by (intros c Hc; apply (numeral_sign_plain c (Hsigns c Hc))).
  assert (List.filter (fun c => negb (c =? 95)) (plain_numeral neg a 46 frac)
          = plain_numeral neg a 46 frac) as ->.
  { apply forallb_filter_id. apply forallb_forall. intros c Hc.
    destruct (numeral_sign_plain c (Hsigns c Hc)) as (_ & _ & -> & _).
    reflexivity. }
  rewrite (numeral_chars_id _ Hsigns).
  set (tail := match frac with Some b => 46 :: b | None => [] end).
  assert (split_sign (plain_numeral neg a 46 frac) = (neg, a ++ tail)) as ->.
  { unfold plain_numeral. fold tail. destruct neg; [reflexivity|].
    cbn [app]. destruct (a ++ tail) as [|c r] eqn:E; [reflexivity|].
    apply split_sign_none.
    - apply Hsigns. unfold plain_numeral. fold tail. cbn [app]. rewrite E.
      left. reflexivity.
    - intros ->. destruct a as [|x a].
      + subst tail. destruct frac as [b|]; cbn in E; discriminate E.
      + cbn in E. injection E as -> _. discriminate Ha. }
  unfold parse_number.
  rewrite (span_digits_app a tail Ha)
    by (subst tail; destruct frac; [reflexivity | exact I]).
  subst tail. destruct frac as [b|]; cbn [default from_option id] in *;
    cbv beta iota.
  - assert (span_digits b = (b, [])) as ->.
    { rewrite <- (app_nil_r b) at 1.
      apply span_digits_app; [exact Hb | exact I]. }
    destruct (a ++ b) as [|c ds] eqn:E; [congruence|].
    cbn [parse_exponent]. rewrite Z.sub_0_l. reflexivity.
  - destruct (a ++ []) as [|c ds] eqn:E; [congruence|].
    cbn [parse_exponent]. reflexivity.
Qed.

(** A cell that holds, spaces aside, a plain numeral (an optional minus
    sign, digits, and possibly a comma or a point followed by digits,
    with a digit somewhere) parses to the number those digits denote:
    the integer written by all the digits, scaled down by as many powers
    of ten as there are digits after the separator.  Comma and point
    mean the same, and spaces may stand anywhere, also between digits. *)
Theorem parse_decimal_plain_numeral (raw : str) (neg : bool) (a : str)
  (sep : N) (frac : option str) :
  forallb ascii_digit a = true ->
  forallb ascii_digit (default [] frac) = true ->
  a ++ default [] frac <> [] ->
  sep = 44 \/ sep = 46 ->
  unspaced raw = plain_numeral neg a sep frac ->
  _parse_decimal (Some raw)
  = Ok (Some (DFinite neg (ascii_value (a ++ default [] frac))
                (- Z.of_nat (length (default [] frac))))).
Proof.
  intros Ha Hb Hne Hsep Hraw.
  pose proof (plain_numeral_signs neg a sep frac Ha Hb Hsep) as Hsigns.
  assert (unspaced (strip raw) = plain_numeral neg a sep frac) as Hstrip.
  { rewrite strip_unspaced; [exact Hraw|].
    intros c Hc. rewrite Hraw in Hc.
    apply (numeral_sign_plain c (Hsigns c Hc)). }
  unfold _parse_decimal.
  destruct (strip raw) as [|x s] eqn:Es.
  { exfalso. cbn in Hstrip. unfold plain_numeral in Hstrip.
    destruct neg; [discriminate Hstrip|]. cbn [app] in Hstrip.
    destruct a as [|y a]; [|discriminate Hstrip].
    destruct frac as [b|]; [discriminate Hstrip|]. apply Hne. reflexivity. }
  cbn [nonempty negb].
  change (lit " ") with [32]. change (lit "") with (@nil N).
  change (lit ",") with [44]. change (lit ".") with [46].
  rewrite replace_space, Hstrip, replace_char.
  assert (flat_map (fun x => if x =? 44 then [46] else [x])
            (plain_numeral neg a sep frac)
          = plain_numeral neg a 46 frac) as ->.
  { assert (forall d, forallb ascii_digit d = true ->
              flat_map (fun x => if x =? 44 then [46] else [x]) d = d) as Hd.
    { induction d as [|c d IH]; [reflexivity|]. cbn [forallb flat_map].
      intros H. apply andb_true_iff in H as [Hc Hd]. rewrite (IH Hd).
      destruct (N.eqb_spec c 44) as [->|_]; [discriminate Hc | reflexivity]. }
    unfold plain_numeral. rewrite !flat_map_app, (Hd a Ha).
    f_equal; [destruct neg; reflexivity|]. f_equal.
    destruct frac as [b|]; [|reflexivity].
    cbn [flat_map default from_option id] in *.
    rewrite (Hd b Hb). destruct Hsep as [-> | ->]; reflexivity. }
  rewrite (Decimal_of_plain_numeral neg a frac Ha Hb Hne). reflexivity.
Qed.

End Numerals.

Lemma parse_decimal_plain_numeral_witness :
  @_parse_decimal basic_latin (Some (lit " -1 234,50 "))
  = Ok (Some (DFinite true 123450 (-2)))
  /\ @_parse_decimal basic_latin (Some (lit "0100"))
     = Ok (Some (DFinite false 100 0)).
Proof.
  split.
  - apply (@parse_decimal_plain_numeral basic_latin (lit " -1 234,50 ") true
             (lit "1234") 44 (Some (lit "50")));
      [reflexivity | reflexivity | discriminate | left; reflexivity
      | reflexivity].
  - apply (@parse_decimal_plain_numeral basic_latin (lit "0100") false
             (lit "0100") 44 None);
      [reflexivity | reflexivity | discriminate | left; reflexivity
      | reflexivity].
Defined.

(** ** The dates of a query *)

Lemma days_in_month_range (y m : N) : 28 <= days_in_month y m <= 31.
Proof.
  unfold days_in_month.
  destruct (m =? 2); [destruct (is_leap y); lia|].
  destruct ((m =? 4) || (m =? 6) || (m =? 9) || (m =? 11)); lia.
Qed.

Lemma make_date_valid (y m d : N) (x : date) :
  make_date y m d = Ok x ->
  x = Date y m d
  /\ 1 <= y <= 9999 /\ 1 <= m <= 12 /\ 1 <= d <= days_in_month y m.
Proof.
  unfold make_date.
  destruct ((1 <=? y) && (y <=? 9999) && (1 <=? m) && (m <=? 12)
            && (1 <=? d) && (d <=? days_in_month y m)) eqn:E;
    [|discriminate].
  intros [= <-]. rewrite !andb_true_iff, !N.leb_le in E.
  split; [reflexivity | lia].
Qed.

Lemma make_date_raises (y m d : N) (e : exn) :
  make_date y m d = Raise e -> e = ValueError.
Proof.
  unfold make_date. destruct (_ && _); [discriminate|].
  intros [= <-]. reflexivity.
Qed.

Section QueryDates.
Context {U : Unicode}.

Lemma month_group_padded (m : N) (r : str) :
  1 <= m <= 12 -> month_group (format_02d m ++ r) = Some (m, r).
Proof.
  intros H.
  assert (m = 1 \/ m = 2 \/ m = 3 \/ m = 4 \/ m = 5 \/ m = 6 \/ m = 7
          \/ m = 8 \/ m = 9 \/ m = 10 \/ m = 11 \/ m = 12) as Hm by lia.
  repeat (destruct Hm as [-> | Hm]); try subst m; reflexivity.
Qed.

Lemma day_group_padded (d : N) :
  1 <= d <= 31 -> day_group (format_02d d) = Some (d, []).
Proof.
  intros H.
  assert (forallb (fun n => match day_group (format_02d (N.of_nat n)) with
                            | Some (d', []) => d' =? N.of_nat n
                            | _ => false
                            end) (seq 1 31) = true) as Hall.
  { cbn [seq forallb]. repeat (apply andb_true_intro; split); reflexivity. }
  rewrite forallb_forall in Hall.
  specialize (Hall (N.to_nat d)). rewrite N2Nat.id in Hall.
  destruct (day_group (format_02d d)) as [[d' [|c r]]|];
    try (discriminate Hall; apply in_seq; lia).
  rewrite (proj1 (N.eqb_eq d' d)); [reflexivity|].
  apply Hall. apply in_seq. lia.
Qed.

Lemma strptime_Ymd_outcome (s : str) :
  match strptime_Ymd s with
  | Ok d =>
      1 <= year d <= 9999 /\ 1 <= month d <= 12
      /\ 1 <= day d <= days_in_month (year d) (month d)
  | Raise e => e = ValueError
  end.
Proof.
  unfold strptime_Ymd.
  destruct (fullmatch_digits 4 (take 4 s)); [|reflexivity].
  destruct (drop 4 s) as [|c s1]; [reflexivity|].
  destruct (N.eqb_spec c 45) as [->|Hc].
  2:{ split_code c; try reflexivity; congruence. }
  destruct (month_group s1) as [[m [|c2 s2]]|]; try reflexivity.
  destruct (N.eqb_spec c2 45) as [->|Hc2].
  2:{ split_code c2; try reflexivity; congruence. }
  destruct (day_group s2) as [[d [|c3 s3]]|]; try reflexivity.
  destruct (int (take 4 s)) as [y|e] eqn:Ey; cbn [mbind result_bind].
  - destruct (make_date y m d) as [x|e] eqn:Ed.
    + apply make_date_valid in Ed as (-> & Hy & Hm & Hd).
      cbn [year month day]. auto.
    + exact (make_date_raises _ _ _ _ Ed).
  - unfold int in Ey. destruct (take 4 s); [congruence|].
    destruct (digits_value 0 _); congruence.
Qed.

(** A date of a query is read as year, month and day: a well-formed
    text gives an existing calendar date (year 1 to 9999, month 1 to 12,
    a day of that month, leap years counted), no text gives no date, and
    any other text is answered with status 400, never another error. *)
Theorem parse_date_outcome (value : option str) :
  match _parse_date value with
  | Ok None => value = None
  | Ok (Some d) =>
      value <> None
      /\ 1 <= year d <= 9999 /\ 1 <= month d <= 12
      /\ 1 <= day d <= days_in_month (year d) (month d)
  | Raise e => value <> None /\ e = HTTPException 400
  end.
Proof.
  destruct value as [s|]; [|reflexivity]. cbn [_parse_date].
  pose proof (strptime_Ymd_outcome s) as H.
  destruct (strptime_Ymd s) as [d|e].
  - split; [discriminate | exact H].
  - subst e. split; [discriminate | reflexivity].
Qed.

(** Every calendar date written as a four-digit year, a dash, a
    two-digit month, a dash and a two-digit day is read back as that
    date. *)
Theorem parse_date_iso (Y : str) (y m d : N) :
  year_digits Y y -> 1 <= m <= 12 -> 1 <= d <= days_in_month y m ->
  _parse_date (Some (Y ++ 45 :: format_02d m ++ 45 :: format_02d d))
  = Ok (Some (Date y m d)).
Proof.
  intros HY Hm Hd. pose proof HY as (HfY & _ & Hy).
  pose proof (fullmatch_digits_length _ _ HfY) as Hlen.
  pose proof (days_in_month_range y m) as Hdim.
  cbn [_parse_date]. unfold strptime_Ymd.
  rewrite take_app_length' by (symmetry; exact Hlen).
  rewrite drop_app_length' by (symmetry; exact Hlen).
  rewrite HfY. cbv beta iota.
  rewrite (month_group_padded m _ Hm). cbv beta iota.
  rewrite (day_group_padded d) by lia.
  rewrite (int_year Y y HY). cbn [mbind result_bind].
  unfold make_date.
  assert ((1 <=? y) && (y <=? 9999) && (1 <=? m) && (m <=? 12)
          && (1 <=? d) && (d <=? days_in_month y m) = true) as ->.
  { rewrite !andb_true_iff, !N.leb_le. lia. }
  reflexivity.
Qed.

End QueryDates.

Lemma parse_date_iso_witness :
  @_parse_date basic_latin (Some (lit "2024-02-29"))
  = Ok (Some (Date 2024 2 29)).
Proof.
  apply (@parse_date_iso basic_latin (lit "2024") 2024 2 29).
  - repeat split; [vm_compute; discriminate | vm_compute; discriminate].
  - lia.
  - vm_compute. split; discriminate.
Defined.
